(** * MuSerial: the serial link of munet ([src/muserial.h])

    A shallow embedding of the [ustd::MuSerial] class: the frame encoder
    [sendOut], the byte-level receiver of [loop], the session bookkeeping
    (ping, timeouts, connect/disconnect events), the outbound bus handler
    [subsMsg] and the block-list configuration methods.

    Bytes and the small unsigned fields ([uint8_t], [uint16_t],
    [unsigned long]) are [Z] with their wrap-around written out.  Strings
    are [String.string]; [String::c_str()] is the list of its byte codes.
    The two C structs [T_HEADER] (8 bytes) and [T_FOOTER] (4 bytes) are
    modelled as the byte lists the code writes through [pHd]/[pFo]. *)

From Stdlib Require Import ZArith Lia String Ascii Bool.
From stdpp Require Import base list.
Import ListNotations.
Open Scope Z_scope.

(** ** Wire constants and byte helpers *)

Definition SOH : Z := 1.
Definition STX : Z := 2.
Definition ETX : Z := 3.
Definition EOT : Z := 4.
Definition VER : Z := 1.

(** [enum LinkCmd { MUPING, MQTT }] as the byte stored in [th.cmd]. *)
Definition MUPING : Z := 0.
Definition MQTT : Z := 1.

Definition u8 (x : Z) : Z := x mod 256.
Definition u16 (x : Z) : Z := x mod 65536.
(** [unsigned long] of the Arduino targets: 32 bits. *)
Definition ulong (x : Z) : Z := x mod 4294967296.

Definition readTimeout : Z := 5.
Definition pingReceiveTimeout : Z := 10.
Definition pingPeriod : Z := 5.

(** [String::c_str()] without its terminator. *)
Definition bytes_of (s : string) : list Z :=
  map (fun a => Z.of_nat (nat_of_ascii a)) (list_ascii_of_string s).

(** [strlen] of a received buffer.  The code calls it on [msgBuf] without
    checking for a terminator; a buffer holding no NUL is read as if the
    heap byte after it were NUL (the C behaviour there is undefined). *)
Fixpoint strlen (b : list Z) : nat :=
  match b with
  | [] => 0%nat
  | x :: r => if x =? 0 then 0%nat else S (strlen r)
  end.

(** [String((const char * ) buf)]: the bytes up to the first NUL. *)
Fixpoint cstr (b : list Z) : string :=
  match b with
  | [] => EmptyString
  | x :: r => if x =? 0 then EmptyString
              else String (ascii_of_nat (Z.to_nat x)) (cstr r)
  end.

(** Arduino [String::substring(from)] (to the end). *)
Definition substr_from (k : nat) (s : string) : string :=
  substring k (String.length s - k) s.

(** Arduino [s.substring(0, n) == p]: [substring] clips [n] to the length. *)
Definition prefix_eq (s p : string) : bool :=
  String.eqb (substring 0 (String.length p) s) p.

(** ** [MuSerial::crc] *)

(** [for (i = 0; i < len; i++) c = c ^ buf[i];] starting from [init]. *)
Fixpoint crc (buf : list Z) (init : Z) : Z :=
  match buf with
  | [] => init
  | b :: r => crc r (Z.lxor init b)
  end.

(** ** The encoder: [MuSerial::sendOut] *)

Section Encoder.

(** The bytes written by [sendOut(topic, msg, cmd)] with [th.num = num]. *)
Definition frame_bytes (num cmd : Z) (topic msg : string) : list Z :=
  let len := Z.of_nat (String.length topic + String.length msg + 2) in
  let th := [SOH; VER; num; cmd; u8 (len / 256); u8 (len mod 256); STX; 0] in
  let ccrc := crc (drop 1 th) 0 in
  let ccrc := crc (bytes_of topic) ccrc in
  let ccrc := crc [0] ccrc in
  let ccrc := crc (bytes_of msg) ccrc in
  let ccrc := crc [0] ccrc in
  let ccrc := crc [ETX; 0] ccrc in
  th ++ bytes_of topic ++ [0] ++ bytes_of msg ++ [0] ++ [ETX; 0; ccrc; EOT].

End Encoder.

(** ** The receiver scratch state *)

Inductive LinkState := SYNC | HEADER | MSG | CRC.

Definition LinkState_eqb (a b : LinkState) : bool :=
  match a, b with
  | SYNC, SYNC | HEADER, HEADER | MSG, MSG | CRC, CRC => true
  | _, _ => false
  end.

(** The private members [linkState, hd, hLen, msgLen, curMsg, msgBuf,
    allocated, fo, cLen].  [msgBuf = None] is [nullptr]. *)
Record Rx := {
  linkState : LinkState;
  hd : list Z;
  hLen : Z;
  msgLen : Z;
  curMsg : Z;
  msgBuf : option (list Z);
  allocated : bool;
  fo : list Z;
  cLen : Z
}.

Definition set_linkState v (r : Rx) : Rx :=
  {| linkState := v; hd := hd r; hLen := hLen r; msgLen := msgLen r; curMsg := curMsg r; msgBuf := msgBuf r; allocated := allocated r; fo := fo r; cLen := cLen r |}.
Definition set_hd v (r : Rx) : Rx :=
  {| linkState := linkState r; hd := v; hLen := hLen r; msgLen := msgLen r; curMsg := curMsg r; msgBuf := msgBuf r; allocated := allocated r; fo := fo r; cLen := cLen r |}.
Definition set_hLen v (r : Rx) : Rx :=
  {| linkState := linkState r; hd := hd r; hLen := v; msgLen := msgLen r; curMsg := curMsg r; msgBuf := msgBuf r; allocated := allocated r; fo := fo r; cLen := cLen r |}.
Definition set_msgLen v (r : Rx) : Rx :=
  {| linkState := linkState r; hd := hd r; hLen := hLen r; msgLen := v; curMsg := curMsg r; msgBuf := msgBuf r; allocated := allocated r; fo := fo r; cLen := cLen r |}.
Definition set_curMsg v (r : Rx) : Rx :=
  {| linkState := linkState r; hd := hd r; hLen := hLen r; msgLen := msgLen r; curMsg := v; msgBuf := msgBuf r; allocated := allocated r; fo := fo r; cLen := cLen r |}.
Definition set_msgBuf v (r : Rx) : Rx :=
  {| linkState := linkState r; hd := hd r; hLen := hLen r; msgLen := msgLen r; curMsg := curMsg r; msgBuf := v; allocated := allocated r; fo := fo r; cLen := cLen r |}.
Definition set_allocated v (r : Rx) : Rx :=
  {| linkState := linkState r; hd := hd r; hLen := hLen r; msgLen := msgLen r; curMsg := curMsg r; msgBuf := msgBuf r; allocated := v; fo := fo r; cLen := cLen r |}.
Definition set_fo v (r : Rx) : Rx :=
  {| linkState := linkState r; hd := hd r; hLen := hLen r; msgLen := msgLen r; curMsg := curMsg r; msgBuf := msgBuf r; allocated := allocated r; fo := v; cLen := cLen r |}.
Definition set_cLen v (r : Rx) : Rx :=
  {| linkState := linkState r; hd := hd r; hLen := hLen r; msgLen := msgLen r; curMsg := curMsg r; msgBuf := msgBuf r; allocated := allocated r; fo := fo r; cLen := v |}.

(** Fields of [T_HEADER] / [T_FOOTER] read by the receiver. *)
Definition hd_ver (h : list Z) : Z := nth 1 h 0.
Definition hd_cmd (h : list Z) : Z := nth 3 h 0.
Definition hd_hLen (h : list Z) : Z := nth 4 h 0.
Definition hd_lLen (h : list Z) : Z := nth 5 h 0.
Definition hd_stx (h : list Z) : Z := nth 6 h 0.
Definition fo_etx (f : list Z) : Z := nth 0 f 0.
Definition fo_crc (f : list Z) : Z := nth 2 f 0.
Definition fo_eot (f : list Z) : Z := nth 3 f 0.

(** A frame that passed the marker and checksum checks of the [CRC] state:
    [hd.cmd], the payload buffer and [msgLen]. *)
Record Frame := {
  fr_cmd : Z;
  fr_payload : list Z;
  fr_len : Z
}.

(** [if (allocated && msgBuf != nullptr) { free(msgBuf); msgBuf = nullptr;
    allocated = false; }] *)
Definition free_buf (r : Rx) : Rx :=
  if allocated r && bool_decide (is_Some (msgBuf r))
  then set_allocated false (set_msgBuf None r)
  else r.

Section Receiver.

(** Whether [malloc(n)] returns a non-null pointer. *)
Variable malloc_ok : Z -> bool.

(** One iteration of the [switch (linkState)] in [loop] on the byte [c],
    with the frame it hands to the command dispatch (the innermost
    [else] branch of the [CRC] state), if any.  The dispatch itself
    ([handle_frame] below) touches only session fields, so it is split off
    here; the buffer is freed right after it as in the code.
    Writes [pHd[hLen] = c], [msgBuf[curMsg] = c], [pFo[cLen] = c] are list
    inserts; an index past the end leaves the list unchanged (in C an
    out-of-bounds write). *)
Definition rx_assemble (c : Z) (r : Rx) : Rx * option Frame :=
  match linkState r with
  | SYNC =>
      if c =? SOH
      then (set_hLen 1 (set_linkState HEADER (set_hd (<[0%nat := SOH]> (hd r)) r)), None)
      else (r, None)
  | HEADER =>
      let h := <[Z.to_nat (hLen r) := c]> (hd r) in
      let n := u16 (hLen r + 1) in
      let r := set_hLen n (set_hd h r) in
      if n =? 8 then
        if negb (hd_ver h =? VER) || negb (hd_stx h =? STX) then
          (set_linkState SYNC r, None)
        else
          let ml := 256 * hd_hLen h + hd_lLen h in
          let r := set_msgLen ml r in
          if ml <? 1024 then
            if malloc_ok ml then
              (set_allocated true (set_linkState MSG
                 (set_curMsg 0 (set_msgBuf (Some (repeat 0 (Z.to_nat ml))) r))), None)
            else
              (set_linkState SYNC (set_curMsg 0 (set_msgBuf None r)), None)
          else (set_linkState SYNC r, None)
      else (r, None)
  | MSG =>
      let b := match msgBuf r with
               | Some b => Some (<[Z.to_nat (curMsg r) := c]> b)
               | None => None
               end in
      let k := u16 (curMsg r + 1) in
      let r := set_curMsg k (set_msgBuf b r) in
      if k =? msgLen r
      then (set_cLen 0 (set_linkState CRC r), None)
      else (r, None)
  | CRC =>
      let f := <[Z.to_nat (cLen r) := c]> (fo r) in
      let k := u16 (cLen r + 1) in
      let r := set_cLen k (set_fo f r) in
      if k =? 4 then
        if negb (fo_etx f =? ETX) || negb (fo_eot f =? EOT) then
          (set_linkState SYNC (free_buf r), None)
        else
          let buf := match msgBuf r with Some b => b | None => [] end in
          let ccrc := crc (drop 1 (hd r)) 0 in
          let ccrc := crc (take (Z.to_nat (msgLen r)) buf) ccrc in
          let ccrc := crc (take 2 f) ccrc in
          if negb (ccrc =? fo_crc f) then
            (set_linkState SYNC (free_buf r), None)
          else
            (set_linkState SYNC (free_buf r),
             Some {| fr_cmd := hd_cmd (hd r); fr_payload := buf; fr_len := msgLen r |})
      else (r, None)
  end.

(** The receiver run over a sequence of bytes, collecting the frames it
    dispatches, in order. *)
Fixpoint rx_feed (cs : list Z) (r : Rx) : Rx * list Frame :=
  match cs with
  | [] => (r, [])
  | c :: cs' =>
      let (r1, o) := rx_assemble c r in
      let (r2, fs) := rx_feed cs' r1 in
      (r2, match o with Some f => f :: fs | None => fs end)
  end.

End Receiver.

(** A freshly constructed receiver ([begin] sets [linkState = SYNC];
    the structs start zeroed). *)
Definition rx_init : Rx :=
  {| linkState := SYNC; hd := repeat 0 8; hLen := 0; msgLen := 0; curMsg := 0;
     msgBuf := None; allocated := false; fo := repeat 0 4; cLen := 0 |}.

Example rx_feed_ex :
  let fs := snd (rx_feed (fun _ => true) (frame_bytes 7 MQTT "a/b" "hi") rx_init) in
  map (fun f => (fr_cmd f, cstr (fr_payload f))) fs = [(MQTT, "a/b"%string)].
Proof. vm_compute. reflexivity. Qed.

(** ** The session: the remaining members of [MuSerial]

    [wire] collects the bytes written to [pSerial], [pubs] the calls
    [pSched->publish(topic, msg, originator)].  The connection LED
    ([ledTimer], [digitalWrite]) has no bearing on the protocol and is left
    out. *)
Record MuSerial := {
  name : string;
  remoteName : string;
  bCheckLink : bool;
  blockNum : Z;
  lastRead : Z;
  lastMsg : Z;
  lastPingSent : Z;
  linkConnected : bool;
  outgoingBlockList : list string;
  incomingBlockList : list string;
  rx : Rx;
  wire : list Z;
  pubs : list (string * string * string)
}.

Definition set_remoteName v (s : MuSerial) : MuSerial :=
  {| name := name s; remoteName := v; bCheckLink := bCheckLink s; blockNum := blockNum s; lastRead := lastRead s; lastMsg := lastMsg s; lastPingSent := lastPingSent s; linkConnected := linkConnected s; outgoingBlockList := outgoingBlockList s; incomingBlockList := incomingBlockList s; rx := rx s; wire := wire s; pubs := pubs s |}.
Definition set_bCheckLink v (s : MuSerial) : MuSerial :=
  {| name := name s; remoteName := remoteName s; bCheckLink := v; blockNum := blockNum s; lastRead := lastRead s; lastMsg := lastMsg s; lastPingSent := lastPingSent s; linkConnected := linkConnected s; outgoingBlockList := outgoingBlockList s; incomingBlockList := incomingBlockList s; rx := rx s; wire := wire s; pubs := pubs s |}.
Definition set_blockNum v (s : MuSerial) : MuSerial :=
  {| name := name s; remoteName := remoteName s; bCheckLink := bCheckLink s; blockNum := v; lastRead := lastRead s; lastMsg := lastMsg s; lastPingSent := lastPingSent s; linkConnected := linkConnected s; outgoingBlockList := outgoingBlockList s; incomingBlockList := incomingBlockList s; rx := rx s; wire := wire s; pubs := pubs s |}.
Definition set_lastRead v (s : MuSerial) : MuSerial :=
  {| name := name s; remoteName := remoteName s; bCheckLink := bCheckLink s; blockNum := blockNum s; lastRead := v; lastMsg := lastMsg s; lastPingSent := lastPingSent s; linkConnected := linkConnected s; outgoingBlockList := outgoingBlockList s; incomingBlockList := incomingBlockList s; rx := rx s; wire := wire s; pubs := pubs s |}.
Definition set_lastMsg v (s : MuSerial) : MuSerial :=
  {| name := name s; remoteName := remoteName s; bCheckLink := bCheckLink s; blockNum := blockNum s; lastRead := lastRead s; lastMsg := v; lastPingSent := lastPingSent s; linkConnected := linkConnected s; outgoingBlockList := outgoingBlockList s; incomingBlockList := incomingBlockList s; rx := rx s; wire := wire s; pubs := pubs s |}.
Definition set_lastPingSent v (s : MuSerial) : MuSerial :=
  {| name := name s; remoteName := remoteName s; bCheckLink := bCheckLink s; blockNum := blockNum s; lastRead := lastRead s; lastMsg := lastMsg s; lastPingSent := v; linkConnected := linkConnected s; outgoingBlockList := outgoingBlockList s; incomingBlockList := incomingBlockList s; rx := rx s; wire := wire s; pubs := pubs s |}.
Definition set_linkConnected v (s : MuSerial) : MuSerial :=
  {| name := name s; remoteName := remoteName s; bCheckLink := bCheckLink s; blockNum := blockNum s; lastRead := lastRead s; lastMsg := lastMsg s; lastPingSent := lastPingSent s; linkConnected := v; outgoingBlockList := outgoingBlockList s; incomingBlockList := incomingBlockList s; rx := rx s; wire := wire s; pubs := pubs s |}.
Definition set_outgoingBlockList v (s : MuSerial) : MuSerial :=
  {| name := name s; remoteName := remoteName s; bCheckLink := bCheckLink s; blockNum := blockNum s; lastRead := lastRead s; lastMsg := lastMsg s; lastPingSent := lastPingSent s; linkConnected := linkConnected s; outgoingBlockList := v; incomingBlockList := incomingBlockList s; rx := rx s; wire := wire s; pubs := pubs s |}.
Definition set_incomingBlockList v (s : MuSerial) : MuSerial :=
  {| name := name s; remoteName := remoteName s; bCheckLink := bCheckLink s; blockNum := blockNum s; lastRead := lastRead s; lastMsg := lastMsg s; lastPingSent := lastPingSent s; linkConnected := linkConnected s; outgoingBlockList := outgoingBlockList s; incomingBlockList := v; rx := rx s; wire := wire s; pubs := pubs s |}.
Definition set_rx v (s : MuSerial) : MuSerial :=
  {| name := name s; remoteName := remoteName s; bCheckLink := bCheckLink s; blockNum := blockNum s; lastRead := lastRead s; lastMsg := lastMsg s; lastPingSent := lastPingSent s; linkConnected := linkConnected s; outgoingBlockList := outgoingBlockList s; incomingBlockList := incomingBlockList s; rx := v; wire := wire s; pubs := pubs s |}.
Definition set_wire v (s : MuSerial) : MuSerial :=
  {| name := name s; remoteName := remoteName s; bCheckLink := bCheckLink s; blockNum := blockNum s; lastRead := lastRead s; lastMsg := lastMsg s; lastPingSent := lastPingSent s; linkConnected := linkConnected s; outgoingBlockList := outgoingBlockList s; incomingBlockList := incomingBlockList s; rx := rx s; wire := v; pubs := pubs s |}.
Definition set_pubs v (s : MuSerial) : MuSerial :=
  {| name := name s; remoteName := remoteName s; bCheckLink := bCheckLink s; blockNum := blockNum s; lastRead := lastRead s; lastMsg := lastMsg s; lastPingSent := lastPingSent s; linkConnected := linkConnected s; outgoingBlockList := outgoingBlockList s; incomingBlockList := incomingBlockList s; rx := rx s; wire := wire s; pubs := v |}.

(** [ustd::array<String>] (from the ustd library): [add] appends and
    returns -1 once [maxSize] entries are held, and also when the storage
    is full and growing it fails (no increment, or the allocation of the
    larger buffer fails); [store_ok] is the outcome of that storage step
    for this call.  [erase(i)] removes entry [i] and fails out of range. *)
Definition array_add (maxSize : nat) (store_ok : bool) (l : list string) (x : string)
  : option (list string) :=
  if (length l <? maxSize)%nat && store_ok then Some (l ++ [x]) else None.

Definition array_erase (l : list string) (i : nat) : option (list string) :=
  if (i <? length l)%nat then Some (take i l ++ drop (S i) l) else None.

(** [for (i = 0; i < l.length(); i++) if (l[i] == topic) ...]: the first
    index holding [topic]. *)
Fixpoint find_index (topic : string) (l : list string) : option nat :=
  match l with
  | [] => None
  | x :: r => if String.eqb x topic then Some 0%nat
              else option_map S (find_index topic r)
  end.

(** [ltoa(value, buf, radix)] for a non-negative value. *)
Fixpoint ltoa_digits (fuel : nat) (v radix : Z) (acc : string) : string :=
  match fuel with
  | O => acc
  | S fuel' =>
      let d := v mod radix in
      let ch := ascii_of_nat (Z.to_nat (if d <? 10 then 48 + d else 87 + d)) in
      let acc := String ch acc in
      if v / radix =? 0 then acc else ltoa_digits fuel' (v / radix) radix acc
  end.

Definition ltoa (v radix : Z) : string := ltoa_digits 64 v radix EmptyString.

Definition publish (topic msg originator : string) (s : MuSerial) : MuSerial :=
  set_pubs (pubs s ++ [(topic, msg, originator)]) s.

Definition link_topic (s : MuSerial) : string :=
  (name s ++ "/link/" ++ remoteName s)%string.

(** [MuSerial::sendOut]: write [frame_bytes] with [th.num = blockNum++]. *)
Definition sendOut (topic msg : string) (cmd : Z) (s : MuSerial) : MuSerial :=
  set_blockNum (u8 (blockNum s + 1))
    (set_wire (wire s ++ frame_bytes (blockNum s) cmd topic msg) s).

(** [MuSerial::ping] at uptime [now] (the [__ARDUINO__] branch). *)
Definition ping (now : Z) (s : MuSerial) : MuSerial :=
  set_lastPingSent now (sendOut (ltoa now 15) (name s) MUPING s).

Section Session.

(** [Scheduler::mqttmatch(topic, pattern)] of the muwerk scheduler. *)
Variable mqttmatch : string -> string -> bool.
Variable malloc_ok : Z -> bool.
(** [maxSize] of the two block-list arrays. *)
Variable maxSize : nat.

Definition blocked (l : list string) (topic : string) : bool :=
  existsb (fun p => mqttmatch topic p) l.

(** [MuSerial::internalPub]. *)
Definition internalPub (topic msg : string) (s : MuSerial) : bool * MuSerial :=
  if blocked (incomingBlockList s) topic then (false, s)
  else
    let pre2 := (remoteName s ++ "/")%string in
    let pre1 := (name s ++ "/")%string in
    let topic := if prefix_eq topic pre1
                 then substr_from (String.length pre1) topic else topic in
    let topic := if String.eqb (substring 0 (String.length pre2) topic) pre1
                 then substr_from (String.length pre2) topic else topic in
    (true, publish topic msg (remoteName s) s).

(** The payload checks and the [switch ((LinkCmd)hd.cmd)] run on a frame
    that passed the checksum, at uptime [now]. *)
Definition handle_frame (now : Z) (f : Frame) (s : MuSerial) : MuSerial :=
  let buf := fr_payload f in
  let l1 := Z.of_nat (strlen buf) in
  if l1 + 2 <=? fr_len f then
    let s := set_lastMsg now s in
    let pM := drop (S (strlen buf)) buf in
    if Z.of_nat (strlen pM) + l1 + 2 <=? fr_len f then
      if fr_cmd f =? MUPING then
        let s := set_lastMsg now (set_remoteName (cstr pM) s) in
        if negb (linkConnected s)
        then publish (link_topic s) "connected" (name s) (set_linkConnected true s)
        else s
      else if fr_cmd f =? MQTT then snd (internalPub (cstr buf) (cstr pM) s)
      else s
    else s
  else s.

(** One pass of the [while (pSerial->available() > 0)] body. *)
Definition rx_byte (now : Z) (s : MuSerial) (c : Z) : MuSerial :=
  let s := set_lastRead now s in
  let (r, o) := rx_assemble malloc_ok c (rx s) in
  let s := set_rx r s in
  match o with
  | Some f => handle_frame now f s
  | None => s
  end.

Definition in_sync (s : MuSerial) : bool := LinkState_eqb (linkState (rx s)) SYNC.

(** The timeout checks at the end of [loop]. *)
Definition check_timeouts (now : Z) (s : MuSerial) : MuSerial :=
  if linkConnected s || negb (in_sync s) then
    if negb (in_sync s) then
      if ulong (now - lastRead s) >? readTimeout then
        let s := set_rx (set_linkState SYNC (rx s)) s in
        let s := if linkConnected s
                 then publish (link_topic s) "disconnected" (name s) s else s in
        let s := set_linkConnected false s in
        set_rx (free_buf (rx s)) s
      else s
    else
      if ulong (now - lastMsg s) >? pingReceiveTimeout then
        let s := if linkConnected s
                 then publish (link_topic s) "disconnected" (name s) s else s in
        set_linkConnected false s
      else s
  else s.

(** [MuSerial::loop], run by the scheduler at uptime [now] with the bytes
    [input] available on the serial port. *)
Definition loop (now : Z) (input : list Z) (s : MuSerial) : MuSerial :=
  if bCheckLink s then
    let s := if ulong (now - lastPingSent s) >? pingPeriod then ping now s else s in
    let s := fold_left (rx_byte now) input s in
    check_timeouts now s
  else s.

(** [MuSerial::subsMsg], subscribed to ["#"]. *)
Definition subsMsg (topic msg originator : string) (s : MuSerial) : MuSerial :=
  if String.eqb originator (remoteName s) then s
  else if blocked (outgoingBlockList s) topic then s
  else
    let pre := (remoteName s ++ "/")%string in
    if prefix_eq topic pre then sendOut topic msg MQTT s
    else sendOut (remoteName s ++ "/" ++ topic)%string msg MQTT s.

(** The block-list configuration methods. *)
Definition outgoingBlockSet (store_ok : bool) (topic : string) (s : MuSerial)
  : bool * MuSerial :=
  if existsb (fun x => String.eqb x topic) (outgoingBlockList s) then (false, s)
  else match array_add maxSize store_ok (outgoingBlockList s) topic with
       | None => (false, s)
       | Some l => (true, set_outgoingBlockList l s)
       end.

Definition outgoingBlockRemove (topic : string) (s : MuSerial) : bool * MuSerial :=
  match find_index topic (outgoingBlockList s) with
  | None => (false, s)
  | Some i => match array_erase (outgoingBlockList s) i with
              | None => (false, s)
              | Some l => (true, set_outgoingBlockList l s)
              end
  end.

Definition incomingBlockSet (store_ok : bool) (topic : string) (s : MuSerial)
  : bool * MuSerial :=
  if existsb (fun x => String.eqb x topic) (incomingBlockList s) then (false, s)
  else match array_add maxSize store_ok (incomingBlockList s) topic with
       | None => (false, s)
       | Some l => (true, set_incomingBlockList l s)
       end.

Definition incomingBlockRemove (topic : string) (s : MuSerial) : bool * MuSerial :=
  match find_index topic (incomingBlockList s) with
  | None => (false, s)
  | Some i => match array_erase (incomingBlockList s) i with
              | None => (false, s)
              | Some l => (true, set_incomingBlockList l s)
              end
  end.

End Session.

(** The constructor [MuSerial(name, ...)] followed by [begin] at uptime
    [now]. *)
Definition MuSerial_new (nm : string) : MuSerial :=
  {| name := nm; remoteName := ""; bCheckLink := false; blockNum := 0;
     lastRead := 0; lastMsg := 0; lastPingSent := 0; linkConnected := false;
     outgoingBlockList := []; incomingBlockList := []; rx := rx_init;
     wire := []; pubs := [] |}.

Definition begin (now : Z) (s : MuSerial) : MuSerial :=
  ping now (set_rx (set_linkState SYNC (rx s)) (set_bCheckLink true s)).

(** The states a node passes through: [begin] on a fresh node, then any
    interleaving of the steps the scheduler and the bus can run: a [ping]
    (the first statement of [loop]), one pass of the byte loop, the timeout
    checks, the bus subscription and the block-list methods. *)
Inductive reachable (mqttmatch : string -> string -> bool) (malloc_ok : Z -> bool)
    (maxSize : nat) : MuSerial -> Prop :=
| reach_begin nm now : reachable mqttmatch malloc_ok maxSize (begin now (MuSerial_new nm))
| reach_ping now s :
    reachable mqttmatch malloc_ok maxSize s ->
    reachable mqttmatch malloc_ok maxSize (ping now s)
| reach_byte now c s :
    reachable mqttmatch malloc_ok maxSize s ->
    reachable mqttmatch malloc_ok maxSize (rx_byte mqttmatch malloc_ok now s c)
| reach_timeouts now s :
    reachable mqttmatch malloc_ok maxSize s ->
    reachable mqttmatch malloc_ok maxSize (check_timeouts now s)
| reach_subs topic msg originator s :
    reachable mqttmatch malloc_ok maxSize s ->
    reachable mqttmatch malloc_ok maxSize (subsMsg mqttmatch topic msg originator s)
| reach_oset store_ok topic s :
    reachable mqttmatch malloc_ok maxSize s ->
    reachable mqttmatch malloc_ok maxSize (snd (outgoingBlockSet maxSize store_ok topic s))
| reach_oremove topic s :
    reachable mqttmatch malloc_ok maxSize s ->
    reachable mqttmatch malloc_ok maxSize (snd (outgoingBlockRemove topic s))
| reach_iset store_ok topic s :
    reachable mqttmatch malloc_ok maxSize s ->
    reachable mqttmatch malloc_ok maxSize (snd (incomingBlockSet maxSize store_ok topic s))
| reach_iremove topic s :
    reachable mqttmatch malloc_ok maxSize s ->
    reachable mqttmatch malloc_ok maxSize (snd (incomingBlockRemove topic s)).

(** ** Predicates used in the statements *)

(** A [String] holding no NUL byte. *)
Definition nul_free (s : string) : bool :=
  forallb (fun z => negb (z =? 0)) (bytes_of s).

(** The payload of a FORWARD frame: [topic NUL msg NUL]. *)
Definition mqtt_payload (topic msg : string) : list Z :=
  bytes_of topic ++ [0] ++ bytes_of msg ++ [0].

(** [t] begins with [p]. *)
Definition starts_with (p t : string) : Prop := exists r, t = (p ++ r)%string.

(** The receiver's buffer discipline: no buffer is held in [SYNC] and
    [HEADER], one is held (and flagged) in [MSG] and [CRC]. *)
Definition rx_ok (r : Rx) : bool :=
  match linkState r with
  | SYNC | HEADER =>
      negb (allocated r) && match msgBuf r with None => true | Some _ => false end
  | MSG | CRC =>
      allocated r && match msgBuf r with Some _ => true | None => false end
  end.

(** A stretch of the byte stream: bytes other than [SOH], then the bytes
    one [sendOut(num, cmd, topic, msg)] writes. *)
Definition chunk : Type := (list Z * (Z * Z * string * string))%type.

Definition chunk_bytes (c : chunk) : list Z :=
  let '(noise, (num, cmd, topic, msg)) := c in noise ++ frame_bytes num cmd topic msg.

(** The frame the receiver is expected to hand on for a chunk. *)
Definition chunk_frame (c : chunk) : Frame :=
  let '(_, (_, cmd, topic, msg)) := c in
  {| fr_cmd := cmd; fr_payload := mqtt_payload topic msg;
     fr_len := Z.of_nat (String.length topic + String.length msg + 2) |}.

(** The noise holds no [SOH], the payload is below the bound of 1024
    and its allocation succeeds. *)
Definition chunk_ok (m : Z -> bool) (c : chunk) : bool :=
  let '(noise, (_, _, topic, msg)) := c in
  let len := Z.of_nat (String.length topic + String.length msg + 2) in
  forallb (fun b => negb (b =? SOH)) noise && (len <? 1024) && m len.

(** The list kept by [array_add] and [array_erase] holds each entry once
    and no more than [maxSize] entries. *)
Definition block_list_ok (maxSize : nat) (l : list string) : Prop :=
  NoDup l /\ (length l <= maxSize)%nat.

(** The indices the receiver writes at in its current state: [pHd[hLen]]
    in [HEADER], [pFo[cLen]] in [CRC], [msgBuf[curMsg]] in [MSG], the
    buffer there being of the declared length. *)
Definition rx_bounds (r : Rx) : Prop :=
  length (hd r) = 8%nat /\ length (fo r) = 4%nat /\
  match linkState r with
  | SYNC => True
  | HEADER => 1 <= hLen r <= 7
  | MSG => 0 <= curMsg r < 65536 /\ msgLen r < 1024 /\
           (0 < msgLen r -> curMsg r < msgLen r) /\
           exists b, msgBuf r = Some b /\ length b = Z.to_nat (msgLen r)
  | CRC => 0 <= cLen r <= 3
  end.

(** ** Sample nodes and frames *)

(** A node ["A"] whose peer is ["B"], and the other way round. *)
Definition node_A : MuSerial := set_remoteName "B" (MuSerial_new "A").
Definition node_B : MuSerial := set_remoteName "A" (MuSerial_new "B").

(** A checksum-valid FORWARD frame of payload length 1 whose payload is a
    single NUL: header, payload [[0]], footer with checksum 0. *)
Definition short_frame : list Z := [1; 1; 0; 1; 0; 1; 2; 0; 0; 3; 0; 0; 4].

(** * General lemmas *)

Lemma crc_app (a b : list Z) (i : Z) : crc (a ++ b) i = crc b (crc a i).
Proof. revert i; induction a as [|x a IH]; intros i; simpl; auto. Qed.

Lemma rx_feed_app (m : Z -> bool) (a b : list Z) (r : Rx) :
  rx_feed m (a ++ b) r =
  let (r1, fs1) := rx_feed m a r in
  let (r2, fs2) := rx_feed m b r1 in (r2, fs1 ++ fs2).
Proof.
  revert r; induction a as [|c a IH]; intros r; simpl.
  - destruct (rx_feed m b r); reflexivity.
  - destruct (rx_assemble m c r) as [r1 o].
    rewrite IH. destruct (rx_feed m a r1) as [r2 fs1].
    destruct (rx_feed m b r2) as [r3 fs2].
    destruct o; reflexivity.
Qed.

Lemma u8_hi_lo (len : Z) : 0 <= len < 1024 ->
  256 * u8 (len / 256) + u8 (len mod 256) = len.
Proof.
  intros H. unfold u8.
  rewrite (Z.mod_small (len / 256)) by (split; [apply Z.div_pos|apply Z.div_lt_upper_bound]; lia).
  rewrite (Z.mod_small (len mod 256)) by (apply Z.mod_pos_bound; lia).
  rewrite <- Z.div_mod by lia. reflexivity.
Qed.

Lemma bytes_of_range (s : string) : Forall (fun z => 0 <= z < 256) (bytes_of s).
Proof.
  unfold bytes_of. apply Forall_forall. intros z Hz.
  apply list_elem_of_In, in_map_iff in Hz as [a [<- _]].
  pose proof (nat_ascii_bounded a). lia.
Qed.

Lemma length_bytes_of (s : string) : length (bytes_of s) = String.length s.
Proof.
  unfold bytes_of. rewrite length_map.
  induction s as [|a s IH]; simpl; auto.
Qed.

Lemma rx_feed_cons_none m c cs r r1 :
  rx_assemble m c r = (r1, None) -> rx_feed m (c :: cs) r = rx_feed m cs r1.
Proof. intros H. simpl. rewrite H. destruct (rx_feed m cs r1); reflexivity. Qed.

Lemma rx_feed_cons_some m c cs r r1 f :
  rx_assemble m c r = (r1, Some f) ->
  rx_feed m (c :: cs) r = let (r2, fs) := rx_feed m cs r1 in (r2, f :: fs).
Proof. intros H. simpl. rewrite H. reflexivity. Qed.

Lemma u16_small x : 0 <= x < 65536 -> u16 x = x.
Proof. intros. unfold u16. apply Z.mod_small; lia. Qed.

Lemma step_sync_soh m r :
  linkState r = SYNC ->
  rx_assemble m SOH r = (set_hLen 1 (set_linkState HEADER (set_hd (<[0%nat:=SOH]> (hd r)) r)), None).
Proof. intros H. unfold rx_assemble. rewrite H. reflexivity. Qed.

Lemma step_sync_other m r c :
  linkState r = SYNC -> c <> SOH -> rx_assemble m c r = (r, None).
Proof. intros H Hc. unfold rx_assemble. rewrite H. apply Z.eqb_neq in Hc. rewrite Hc. reflexivity. Qed.

Lemma step_header_more m r c :
  linkState r = HEADER -> 0 <= hLen r -> hLen r + 1 < 8 ->
  rx_assemble m c r =
  (set_hLen (hLen r + 1) (set_hd (<[Z.to_nat (hLen r) := c]> (hd r)) r), None).
Proof.
  intros H H0 H1. unfold rx_assemble. rewrite H.
  rewrite u16_small by lia.
  replace (hLen r + 1 =? 8) with false by (symmetry; apply Z.eqb_neq; lia).
  reflexivity.
Qed.

Lemma step_header_last_ok m r c :
  linkState r = HEADER -> hLen r = 7 ->
  let h := <[7%nat := c]> (hd r) in
  hd_ver h = VER -> hd_stx h = STX ->
  256 * hd_hLen h + hd_lLen h < 1024 ->
  m (256 * hd_hLen h + hd_lLen h) = true ->
  rx_assemble m c r =
  (set_allocated true (set_linkState MSG (set_curMsg 0
     (set_msgBuf (Some (repeat 0 (Z.to_nat (256 * hd_hLen h + hd_lLen h))))
     (set_msgLen (256 * hd_hLen h + hd_lLen h) (set_hLen 8 (set_hd h r)))))), None).
Proof.
  intros H Hl h Hv Hs Hb Hm. unfold rx_assemble. rewrite H, Hl. cbv zeta.
  change (Z.to_nat 7) with 7%nat. change (u16 (7 + 1)) with 8.
  change (8 =? 8) with true. cbv iota beta. fold h.
  rewrite Hv, Hs, !Z.eqb_refl. cbn [negb orb].
  replace (256 * hd_hLen h + hd_lLen h <? 1024) with true by (symmetry; apply Z.ltb_lt; lia).
  rewrite Hm. reflexivity.
Qed.

Ltac rx_norm :=
  cbn [set_linkState set_hd set_hLen set_msgLen set_curMsg set_msgBuf set_allocated
       set_fo set_cLen linkState hd hLen msgLen curMsg msgBuf allocated fo cLen].

Ltac hstep :=
  match goal with |- context [rx_feed ?m (?c :: ?cs) ?r] =>
    rewrite (rx_feed_cons_none m c cs r _
               (step_header_more m r c eq_refl ltac:(simpl; lia) ltac:(simpl; lia)))
  end; rx_norm.

Lemma header_step (m : Z -> bool) (r : Rx) (num cmd hi lo len : Z) :
  linkState r = SYNC -> length (hd r) = 8%nat ->
  256 * hi + lo = len -> len < 1024 -> m len = true ->
  rx_feed m [SOH; VER; num; cmd; hi; lo; STX; 0] r =
  ({| linkState := MSG;
      hd := [SOH; VER; num; cmd; hi; lo; STX; 0];
      hLen := 8; msgLen := len; curMsg := 0;
      msgBuf := Some (repeat 0 (Z.to_nat len)); allocated := true;
      fo := fo r; cLen := cLen r |}, []).
Proof.
  intros Hst Hlen Hml Hb Hm. subst len.
  destruct r as [st h hl ml cm mb al f cl]; cbn [linkState hd fo cLen] in *; subst st.
  do 9 (destruct h as [|? h]; simpl in Hlen; try discriminate).
  match goal with |- context [rx_feed ?m (?c :: ?cs) ?r] =>
    rewrite (rx_feed_cons_none m c cs r _ (step_sync_soh m r eq_refl)) end; rx_norm.
  do 6 hstep.
  match goal with |- context [rx_feed ?m (?c :: ?cs) ?r] =>
    rewrite (rx_feed_cons_none m c cs r _
             (step_header_last_ok m r c eq_refl eq_refl eq_refl eq_refl
                ltac:(cbv [hd_hLen hd_lLen]; simpl; lia)
                ltac:(cbv [hd_hLen hd_lLen]; simpl; exact Hm))) end.
  reflexivity.
Qed.

Lemma step_msg_more m r c b :
  linkState r = MSG -> msgBuf r = Some b -> 0 <= curMsg r -> curMsg r + 1 < 65536 ->
  curMsg r + 1 <> msgLen r ->
  rx_assemble m c r =
  (set_curMsg (curMsg r + 1) (set_msgBuf (Some (<[Z.to_nat (curMsg r) := c]> b)) r), None).
Proof.
  intros H Hb H0 H1 H2. unfold rx_assemble. rewrite H, Hb.
  rewrite u16_small by lia.
  replace (curMsg r + 1 =? msgLen (set_msgBuf (Some (<[Z.to_nat (curMsg r):=c]> b)) r))
    with false by (symmetry; apply Z.eqb_neq; exact H2).
  reflexivity.
Qed.

Lemma step_msg_last m r c b :
  linkState r = MSG -> msgBuf r = Some b -> 0 <= curMsg r -> curMsg r + 1 < 65536 ->
  curMsg r + 1 = msgLen r ->
  rx_assemble m c r =
  (set_cLen 0 (set_linkState CRC (set_curMsg (msgLen r)
     (set_msgBuf (Some (<[Z.to_nat (curMsg r) := c]> b)) r))), None).
Proof.
  intros H Hb H0 H1 H2. unfold rx_assemble. rewrite H, Hb.
  rewrite u16_small by lia.
  replace (curMsg r + 1 =? msgLen (set_msgBuf (Some (<[Z.to_nat (curMsg r):=c]> b)) r))
    with true by (symmetry; apply Z.eqb_eq; exact H2).
  rewrite H2. reflexivity.
Qed.

Lemma set_curMsg_msgBuf_twice x y x' y' r :
  set_curMsg x (set_msgBuf y (set_curMsg x' (set_msgBuf y' r))) =
  set_curMsg x (set_msgBuf y r).
Proof. destruct r; reflexivity. Qed.

(** The receiver filling the payload buffer from [MSG]. *)
Lemma feed_payload (m : Z -> bool) (l : list Z) : forall (r : Rx) (b : list Z) (k : nat),
  linkState r = MSG -> msgBuf r = Some b -> curMsg r = Z.of_nat k ->
  length b = (k + length l)%nat -> msgLen r = Z.of_nat (k + length l) ->
  Z.of_nat (k + length l) < 65536 -> l <> [] ->
  rx_feed m l r =
  (set_cLen 0 (set_linkState CRC (set_curMsg (msgLen r)
     (set_msgBuf (Some (take k b ++ l)) r))), []).
Proof.
  induction l as [|c l IH]; intros r b k Hst Hb Hk Hlen Hml Hbd Hne; [congruence|].
  destruct l as [|c' l']; simpl length in *.
  - rewrite (rx_feed_cons_none m c [] r _
               (step_msg_last m r c b Hst Hb ltac:(lia) ltac:(lia) ltac:(lia))).
    simpl rx_feed. rewrite Hk, Nat2Z.id.
    rewrite insert_take_drop by lia.
    replace (drop (S k) b) with (@nil Z)
      by (symmetry; apply length_zero_iff_nil; rewrite length_drop; lia).
    reflexivity.
  - rewrite (rx_feed_cons_none m c (c' :: l') r _
               (step_msg_more m r c b Hst Hb ltac:(lia) ltac:(lia) ltac:(simpl in *; lia))).
    rewrite Hk, Nat2Z.id.
    rewrite (IH _ (<[k:=c]> b) (S k)); cbn [linkState msgBuf curMsg msgLen set_curMsg set_msgBuf];
      try solve [assumption | reflexivity | lia | discriminate | rewrite length_insert; simpl in *; lia].
    rewrite set_curMsg_msgBuf_twice.
    rewrite (take_S_r _ _ c) by (apply list_lookup_insert_eq; lia).
    rewrite take_insert_ge by lia. rewrite <- app_assoc. reflexivity.
Qed.

Lemma step_crc_more m r c :
  linkState r = CRC -> 0 <= cLen r -> cLen r + 1 < 4 ->
  rx_assemble m c r =
  (set_cLen (cLen r + 1) (set_fo (<[Z.to_nat (cLen r) := c]> (fo r)) r), None).
Proof.
  intros H H0 H1. unfold rx_assemble. rewrite H.
  rewrite u16_small by lia.
  replace (cLen r + 1 =? 4) with false by (symmetry; apply Z.eqb_neq; lia).
  reflexivity.
Qed.

(** The last footer byte of a frame whose markers and checksum are right. *)
Lemma step_crc_last_ok m r c :
  linkState r = CRC -> cLen r = 3 ->
  let f := <[3%nat := c]> (fo r) in
  let buf := match msgBuf r with Some b => b | None => [] end in
  fo_etx f = ETX -> fo_eot f = EOT ->
  crc (take 2 f) (crc (take (Z.to_nat (msgLen r)) buf) (crc (drop 1 (hd r)) 0)) = fo_crc f ->
  rx_assemble m c r =
  (set_linkState SYNC (free_buf (set_cLen 4 (set_fo f r))),
   Some {| fr_cmd := hd_cmd (hd r); fr_payload := buf; fr_len := msgLen r |}).
Proof.
  intros H Hl f buf He Ho Hc. unfold rx_assemble. rewrite H, Hl. cbv zeta.
  change (Z.to_nat 3) with 3%nat. change (u16 (3 + 1)) with 4.
  change (4 =? 4) with true. cbv iota beta. fold f.
  rewrite He, Ho, !Z.eqb_refl. cbn [negb orb msgBuf hd msgLen set_cLen set_fo].
  fold buf. rewrite Hc, Z.eqb_refl. reflexivity.
Qed.

Ltac cstep :=
  match goal with |- context [rx_feed ?m (?c :: ?cs) ?r] =>
    rewrite (rx_feed_cons_none m c cs r _
               (step_crc_more m r c eq_refl ltac:(simpl; lia) ltac:(simpl; lia)))
  end; rx_norm.

(** The receiver reading a correct footer from [CRC]. *)
Lemma feed_footer (m : Z -> bool) (r : Rx) (buf : list Z) (cc : Z) :
  linkState r = CRC -> cLen r = 0 -> length (fo r) = 4%nat -> msgBuf r = Some buf ->
  cc = crc [ETX; 0] (crc (take (Z.to_nat (msgLen r)) buf) (crc (drop 1 (hd r)) 0)) ->
  rx_feed m [ETX; 0; cc; EOT] r =
  (set_linkState SYNC (free_buf (set_cLen 4 (set_fo [ETX; 0; cc; EOT] r))),
   [{| fr_cmd := hd_cmd (hd r); fr_payload := buf; fr_len := msgLen r |}]).
Proof.
  intros Hst Hc Hlen Hb Hcc.
  destruct r as [st h hl ml cm mb al f cl]; cbn [linkState hd fo cLen msgBuf msgLen] in *.
  subst st cl mb.
  do 5 (destruct f as [|? f]; simpl in Hlen; try discriminate).
  do 3 cstep.
  match goal with |- context [rx_feed ?m (?c :: ?cs) ?r] =>
    rewrite (rx_feed_cons_some m c cs r _ _
               (step_crc_last_ok m r c eq_refl eq_refl eq_refl eq_refl
                  ltac:(cbn; rewrite Hcc; reflexivity))) end.
  reflexivity.
Qed.

(** ** Reading back NUL-terminated strings *)

Lemma strlen_nul_free (s : string) (rest : list Z) :
  nul_free s = true -> strlen (bytes_of s ++ 0 :: rest) = String.length s.
Proof.
  unfold nul_free, bytes_of. induction s as [|a s IH]; simpl; auto.
  intros H. apply andb_true_iff in H as [Ha Hs].
  destruct (Z.of_nat (nat_of_ascii a) =? 0); [discriminate|]. rewrite IH; auto.
Qed.

Lemma cstr_nul_free (s : string) (rest : list Z) :
  nul_free s = true -> cstr (bytes_of s ++ 0 :: rest) = s.
Proof.
  unfold nul_free, bytes_of. induction s as [|a s IH]; simpl; auto.
  intros H. apply andb_true_iff in H as [Ha Hs].
  destruct (Z.of_nat (nat_of_ascii a) =? 0); [discriminate|].
  rewrite IH, Nat2Z.id, ascii_nat_embedding; auto.
Qed.

Lemma drop_after_string (s : string) (rest : list Z) :
  drop (S (String.length s)) (bytes_of s ++ 0 :: rest) = rest.
Proof.
  rewrite <- length_bytes_of. induction (bytes_of s) as [|x l IH]; simpl; auto.
Qed.

Lemma nul_free_strlen_end (s : string) :
  nul_free s = true -> strlen (bytes_of s ++ [0]) = String.length s.
Proof. apply strlen_nul_free. Qed.

Lemma cstr_end (s : string) :
  nul_free s = true -> cstr (bytes_of s ++ [0]) = s.
Proof. apply cstr_nul_free. Qed.

(** The command dispatch of a FORWARD frame carrying [topic NUL msg NUL]. *)
Lemma handle_forward (mm : string -> string -> bool) (now : Z) (s : MuSerial)
  (topic msg : string) :
  nul_free topic = true -> nul_free msg = true ->
  handle_frame mm now
    {| fr_cmd := MQTT; fr_payload := mqtt_payload topic msg;
       fr_len := Z.of_nat (String.length topic + String.length msg + 2) |} s =
  snd (internalPub mm topic msg (set_lastMsg now s)).
Proof.
  intros Ht Hm. unfold handle_frame, mqtt_payload. cbn [fr_payload fr_len fr_cmd].
  simpl app.
  rewrite (strlen_nul_free topic) by exact Ht.
  rewrite drop_after_string, nul_free_strlen_end by exact Hm.
  rewrite (cstr_nul_free topic) by exact Ht. rewrite cstr_end by exact Hm.
  replace (Z.of_nat (String.length topic) + 2 <=?
           Z.of_nat (String.length topic + String.length msg + 2)) with true
    by (symmetry; apply Z.leb_le; lia).
  replace (Z.of_nat (String.length msg) + Z.of_nat (String.length topic) + 2 <=?
           Z.of_nat (String.length topic + String.length msg + 2)) with true
    by (symmetry; apply Z.leb_le; lia).
  reflexivity.
Qed.

Lemma length_mqtt_payload (topic msg : string) :
  length (mqtt_payload topic msg) = (String.length topic + String.length msg + 2)%nat.
Proof.
  unfold mqtt_payload. rewrite !length_app, !length_bytes_of. simpl. lia.
Qed.

(** [sendOut(topic, msg, cmd)] as header, payload and footer. *)
Lemma frame_bytes_split (num cmd : Z) (topic msg : string) :
  let len := Z.of_nat (String.length topic + String.length msg + 2) in
  let th := [SOH; VER; num; cmd; u8 (len / 256); u8 (len mod 256); STX; 0] in
  frame_bytes num cmd topic msg =
  th ++ mqtt_payload topic msg ++
  [ETX; 0; crc [ETX; 0] (crc (mqtt_payload topic msg) (crc (drop 1 th) 0)); EOT].
Proof.
  intros len th. unfold frame_bytes, mqtt_payload. fold len. fold th.
  rewrite !crc_app. rewrite <- !app_assoc. reflexivity.
Qed.

(** The receiver, from [SYNC], on the bytes [sendOut] writes for a payload
    within the accepted bound. *)
Lemma feed_frame (m : Z -> bool) (r : Rx) (num cmd : Z) (topic msg : string) :
  let len := Z.of_nat (String.length topic + String.length msg + 2) in
  linkState r = SYNC -> length (hd r) = 8%nat -> length (fo r) = 4%nat ->
  len < 1024 -> m len = true ->
  exists r',
    rx_feed m (frame_bytes num cmd topic msg) r =
      (r', [{| fr_cmd := cmd; fr_payload := mqtt_payload topic msg; fr_len := len |}]) /\
    linkState r' = SYNC /\ allocated r' = false /\ msgBuf r' = None /\
    length (hd r') = 8%nat /\ length (fo r') = 4%nat.
Proof.
  intros len Hst Hh Hf Hb Hm.
  rewrite frame_bytes_split. fold len.
  set (P := mqtt_payload topic msg).
  assert (HP : length P = Z.to_nat len)
    by (unfold P, len; rewrite length_mqtt_payload, Nat2Z.id; reflexivity).
  assert (Hlen0 : 0 <= len) by (unfold len; lia).
  rewrite rx_feed_app.
  rewrite (header_step m r num cmd (u8 (len / 256)) (u8 (len mod 256)) len Hst Hh
             (u8_hi_lo len ltac:(lia)) Hb Hm).
  rewrite rx_feed_app.
  match goal with |- context [rx_feed m P ?r1] =>
    rewrite (feed_payload m P r1 (repeat 0 (Z.to_nat len)) 0 eq_refl eq_refl eq_refl)
  end; cbn [msgLen]; try (rewrite repeat_length); try lia.
  all: try (unfold P; intros E; apply (f_equal length) in E;
            rewrite length_mqtt_payload in E; simpl in E; lia).
  simpl take. simpl app.
  rewrite (feed_footer m _ P); cbn [linkState cLen fo msgBuf msgLen hd set_cLen set_linkState
                                      set_curMsg set_msgBuf]; auto.
  - eexists; split; [reflexivity|]. unfold free_buf; simpl. auto.
  - rewrite take_ge by lia. reflexivity.
Qed.

(** ** String prefixes *)

Lemma substring_all (t : string) : substring 0 (String.length t) t = t.
Proof. induction t as [|a t IH]; simpl; congruence. Qed.

Lemma substring_split (t : string) (n : nat) :
  t = (substring 0 n t ++ substr_from n t)%string.
Proof.
  unfold substr_from. revert n; induction t as [|a t IH]; intros [|n]; simpl; auto.
  - rewrite substring_all. reflexivity.
  - f_equal. apply IH.
Qed.

Lemma prefix_eq_true (t p : string) :
  prefix_eq t p = true -> t = (p ++ substr_from (String.length p) t)%string.
Proof.
  unfold prefix_eq. intros H. apply String.eqb_eq in H.
  pose proof (substring_split t (String.length p)) as E. rewrite H in E. exact E.
Qed.

Lemma substring_app_prefix (p r : string) :
  substring 0 (String.length p) (p ++ r) = p.
Proof. induction p as [|a p IH]; simpl; [destruct r|]; try reflexivity; congruence. Qed.

Lemma prefix_eq_app (p r : string) : prefix_eq (p ++ r) p = true.
Proof. unfold prefix_eq. rewrite substring_app_prefix. apply String.eqb_refl. Qed.




Lemma prefix_eq_starts (t p : string) : prefix_eq t p = true <-> starts_with p t.
Proof.
  split.
  - intros H. eexists. exact (prefix_eq_true t p H).
  - intros [r ->]. apply prefix_eq_app.
Qed.


(** ** Header prefixes *)

(** The first seven header bytes from [SYNC]. *)
Lemma header7 (m : Z -> bool) (r : Rx) (b1 b2 b3 b4 b5 b6 : Z) :
  linkState r = SYNC -> length (hd r) = 8%nat ->
  rx_feed m [SOH; b1; b2; b3; b4; b5; b6] r =
  (set_hLen 7 (set_linkState HEADER
     (set_hd [SOH; b1; b2; b3; b4; b5; b6; nth 7 (hd r) 0] r)), []).
Proof.
  intros Hst Hlen.
  destruct r as [st h hl ml cm mb al f cl]; cbn [linkState hd] in *; subst st.
  do 9 (destruct h as [|? h]; simpl in Hlen; try discriminate).
  match goal with |- context [rx_feed ?m (?c :: ?cs) ?r] =>
    rewrite (rx_feed_cons_none m c cs r _ (step_sync_soh m r eq_refl)) end; rx_norm.
  do 6 hstep. reflexivity.
Qed.

(** The eighth header byte. *)
Lemma header_last (m : Z -> bool) (r : Rx) (b1 b2 b3 b4 b5 b6 c : Z) :
  linkState r = SYNC -> length (hd r) = 8%nat ->
  rx_feed m [SOH; b1; b2; b3; b4; b5; b6; c] r =
  let h := [SOH; b1; b2; b3; b4; b5; b6; c] in
  let r7 := set_hLen 8 (set_hd h r) in
  ((if negb (b1 =? VER) || negb (b6 =? STX) then set_linkState SYNC r7
    else
      let ml := 256 * b4 + b5 in
      let r8 := set_msgLen ml r7 in
      if ml <? 1024 then
        if m ml then
          set_allocated true (set_linkState MSG
            (set_curMsg 0 (set_msgBuf (Some (repeat 0 (Z.to_nat ml))) r8)))
        else set_linkState SYNC (set_curMsg 0 (set_msgBuf None r8))
      else set_linkState SYNC r8), []).
Proof.
  intros Hst Hlen.
  change [SOH; b1; b2; b3; b4; b5; b6; c] with ([SOH; b1; b2; b3; b4; b5; b6] ++ [c]).
  rewrite rx_feed_app, header7 by assumption.
  cbn [rx_feed]. unfold rx_assemble. rx_norm.
  change (Z.to_nat 7) with 7%nat. change (u16 (7 + 1)) with 8. change (8 =? 8) with true.
  cbv iota beta zeta. simpl insert. cbv [hd_ver hd_stx hd_hLen hd_lLen]. simpl nth.
  destruct (negb (b1 =? VER) || negb (b6 =? STX)); [reflexivity|].
  destruct (256 * b4 + b5 <? 1024); [|reflexivity]. destruct (m (256 * b4 + b5)); reflexivity.
Qed.

(** In [SYNC] every byte other than [SOH] is skipped. *)
Lemma sync_skip (m : Z -> bool) (cs : list Z) (r : Rx) :
  linkState r = SYNC -> Forall (fun c => c <> SOH) cs -> rx_feed m cs r = (r, []).
Proof.
  intros Hst H. induction H as [|c cs Hc _ IH]; [reflexivity|].
  rewrite (rx_feed_cons_none m c cs r r (step_sync_other m r c Hst Hc)). exact IH.
Qed.

(** ** Block lists *)

Lemma existsb_eqb_In (t : string) (l : list string) :
  In t l -> existsb (fun x => String.eqb x t) l = true.
Proof.
  intros H. apply existsb_exists. exists t. split; [exact H|apply String.eqb_refl].
Qed.

Lemma existsb_eqb_not_In (t : string) (l : list string) :
  ~ In t l -> existsb (fun x => String.eqb x t) l = false.
Proof.
  intros H. destruct (existsb _ l) eqn:E; [|reflexivity].
  apply existsb_exists in E as [x [Hx Ex]]. apply String.eqb_eq in Ex. subst. contradiction.
Qed.

Lemma find_index_not_In (t : string) (l : list string) :
  ~ In t l -> find_index t l = None.
Proof.
  induction l as [|x l IH]; intros H; [reflexivity|]. simpl.
  destruct (String.eqb x t) eqn:E.
  - apply String.eqb_eq in E. subst. exfalso. apply H. left. reflexivity.
  - rewrite IH; [reflexivity|]. intros Hi. apply H. right. exact Hi.
Qed.

(** ** Timeouts *)

(** [ping] only writes to the wire and records the time. *)
Lemma ping_keeps now s :
  linkConnected (ping now s) = linkConnected s /\ rx (ping now s) = rx s /\
  pubs (ping now s) = pubs s /\ lastMsg (ping now s) = lastMsg s /\
  name (ping now s) = name s /\ remoteName (ping now s) = remoteName s /\
  bCheckLink (ping now s) = bCheckLink s.
Proof. repeat split; reflexivity. Qed.

(** [loop] with no bytes available: the ping if due, then the timeouts. *)
Lemma loop_empty mm m now s :
  bCheckLink s = true ->
  exists sp, loop mm m now [] s = check_timeouts now sp /\
    linkConnected sp = linkConnected s /\ rx sp = rx s /\ pubs sp = pubs s /\
    lastMsg sp = lastMsg s /\ name sp = name s /\ remoteName sp = remoteName s /\
    bCheckLink sp = true.
Proof.
  intros Hb. unfold loop. rewrite Hb. cbn [fold_left].
  case_match; eexists; (split; [reflexivity|]).
  - pose proof (ping_keeps now s) as K. intuition congruence.
  - auto 10.
Qed.

(** With the link down, the timeout checks publish nothing. *)
Lemma check_timeouts_quiet now s :
  linkConnected s = false -> pubs (check_timeouts now s) = pubs s.
Proof.
  intros H. unfold check_timeouts. rewrite H.
  repeat (case_match; cbn; try rewrite H); reflexivity.
Qed.

Lemma check_timeouts_idle now s :
  linkConnected s = false -> linkState (rx s) = SYNC -> check_timeouts now s = s.
Proof.
  intros H Hs. unfold check_timeouts, in_sync. rewrite H, Hs. reflexivity.
Qed.

(** ** The link flag *)

Lemma handle_frame_link_up mm now f s :
  linkConnected s = true -> linkConnected (handle_frame mm now f s) = true.
Proof.
  intros H. unfold handle_frame, internalPub, publish.
  repeat (case_match; cbn; try rewrite H); reflexivity.
Qed.

Lemma handle_frame_link_set mm now f s :
  linkConnected s = false -> linkConnected (handle_frame mm now f s) = true ->
  fr_cmd f = MUPING.
Proof.
  intros H. unfold handle_frame, internalPub, publish.
  repeat (case_match; cbn; try rewrite H); try discriminate;
    intros _; apply Z.eqb_eq; assumption.
Qed.

Lemma rx_byte_link mm m now s c :
  linkConnected (rx_byte mm m now s c) =
  match snd (rx_assemble m c (rx s)) with
  | Some f => linkConnected (handle_frame mm now f (set_rx (fst (rx_assemble m c (rx s)))
                                                      (set_lastRead now s)))
  | None => linkConnected s
  end.
Proof.
  unfold rx_byte. cbn [rx set_lastRead].
  destruct (rx_assemble m c (rx s)) as [r [f|]]; reflexivity.
Qed.

(** The dispatch of a PING frame carrying [stamp NUL peer NUL]. *)
Lemma handle_ping (mm : string -> string -> bool) (now : Z) (s : MuSerial)
  (stamp peer : string) :
  nul_free stamp = true -> nul_free peer = true ->
  let s' := handle_frame mm now
              {| fr_cmd := MUPING; fr_payload := mqtt_payload stamp peer;
                 fr_len := Z.of_nat (String.length stamp + String.length peer + 2) |} s in
  linkConnected s' = true /\ remoteName s' = peer /\ lastMsg s' = now.
Proof.
  intros Ht Hm s'. unfold s', handle_frame, mqtt_payload. cbn [fr_payload fr_len fr_cmd].
  simpl app.
  rewrite (strlen_nul_free stamp) by exact Ht.
  rewrite drop_after_string, nul_free_strlen_end by exact Hm.
  rewrite cstr_end by exact Hm.
  replace (Z.of_nat (String.length stamp) + 2 <=?
           Z.of_nat (String.length stamp + String.length peer + 2)) with true
    by (symmetry; apply Z.leb_le; lia).
  replace (Z.of_nat (String.length peer) + Z.of_nat (String.length stamp) + 2 <=?
           Z.of_nat (String.length stamp + String.length peer + 2)) with true
    by (symmetry; apply Z.leb_le; lia).
  change (MUPING =? MUPING) with true. cbn.
  destruct (linkConnected s) eqn:E; cbn; rewrite ?E; cbn; repeat split; auto.
Qed.

(** ** The dispatch and the receiver's buffer *)

(** A payload whose first string leaves no room for the second. *)
Lemma handle_short (mm : string -> string -> bool) (now : Z) (f : Frame) (s : MuSerial) :
  Z.of_nat (strlen (fr_payload f)) + 2 > fr_len f -> handle_frame mm now f s = s.
Proof.
  intros H. unfold handle_frame.
  replace (Z.of_nat (strlen (fr_payload f)) + 2 <=? fr_len f) with false
    by (symmetry; apply Z.leb_gt; lia).
  reflexivity.
Qed.

Lemma handle_frame_rx mm now f s : rx (handle_frame mm now f s) = rx s.
Proof.
  unfold handle_frame, internalPub, publish.
  repeat (case_match; simpl); reflexivity.
Qed.

Lemma rx_assemble_ok m c r : rx_ok r = true -> rx_ok (fst (rx_assemble m c r)) = true.
Proof.
  destruct r as [st h hl ml cm mb al f cl].
  unfold rx_assemble, rx_ok, free_buf. cbn [linkState msgBuf allocated].
  destruct st; intros H; rx_norm;
    repeat (case_match; rx_norm; simpl in *; try congruence);
    destruct mb, al; simpl in *; try congruence.
Qed.

Lemma rx_assemble_some_sync m c r r' f :
  rx_assemble m c r = (r', Some f) -> linkState r' = SYNC.
Proof.
  unfold rx_assemble. repeat case_match; intros E; inversion E; reflexivity.
Qed.

Lemma rx_ok_sync r :
  rx_ok r = true -> linkState r = SYNC -> allocated r = false /\ msgBuf r = None.
Proof.
  unfold rx_ok. intros H E. rewrite E in H.
  destruct (allocated r), (msgBuf r); simpl in H; try discriminate; auto.
Qed.

(** ** The receiver's buffer along a run *)

Lemma rx_byte_rx mm m now s c : rx (rx_byte mm m now s c) = fst (rx_assemble m c (rx s)).
Proof.
  unfold rx_byte. cbn [rx set_lastRead].
  destruct (rx_assemble m c (rx s)) as [r [f|]]; [rewrite handle_frame_rx|]; reflexivity.
Qed.

Lemma free_buf_sync_ok r : rx_ok r = true -> rx_ok (free_buf (set_linkState SYNC r)) = true.
Proof.
  destruct r as [st h hl ml cm mb al f cl]. unfold rx_ok, free_buf. cbn.
  destruct st, al, mb; cbn; congruence.
Qed.

Lemma check_timeouts_ok now s :
  rx_ok (rx s) = true -> rx_ok (rx (check_timeouts now s)) = true.
Proof.
  intros H. unfold check_timeouts.
  repeat (case_match; cbn [rx set_rx set_linkConnected publish set_pubs]);
    try assumption; apply free_buf_sync_ok; assumption.
Qed.

Lemma subsMsg_rx mm topic msg originator s : rx (subsMsg mm topic msg originator s) = rx s.
Proof. unfold subsMsg. repeat case_match; reflexivity. Qed.

Lemma reachable_ok mm m maxSize s : reachable mm m maxSize s -> rx_ok (rx s) = true.
Proof.
  induction 1 as [nm now|now s _ IH|now c s _ IH|now s _ IH|topic msg o s _ IH
                 |b topic s _ IH|topic s _ IH|b topic s _ IH|topic s _ IH].
  - reflexivity.
  - exact IH.
  - rewrite rx_byte_rx. apply rx_assemble_ok. exact IH.
  - apply check_timeouts_ok. exact IH.
  - rewrite subsMsg_rx. exact IH.
  - unfold outgoingBlockSet. repeat case_match; exact IH.
  - unfold outgoingBlockRemove. repeat case_match; exact IH.
  - unfold incomingBlockSet. repeat case_match; exact IH.
  - unfold incomingBlockRemove. repeat case_match; exact IH.
Qed.

(** A whole run of [loop] is a sequence of steps of [reachable]. *)
Lemma reachable_loop mm m maxSize now input s :
  reachable mm m maxSize s -> reachable mm m maxSize (loop mm m now input s).
Proof.
  intros H. unfold loop. case_match; [|exact H].
  apply reach_timeouts.
  assert (Hp : reachable mm m maxSize
                 (if ulong (now - lastPingSent s) >? pingPeriod then ping now s else s))
    by (case_match; [apply reach_ping|]; exact H).
  revert Hp. generalize (if ulong (now - lastPingSent s) >? pingPeriod then ping now s else s).
  clear H. induction input as [|c input IH]; intros s0 Hs0; [exact Hs0|].
  apply IH. apply reach_byte. exact Hs0.
Qed.

(** * The claims *)

(** ** C1 *)

(** C1 (round trip): for a topic and a message free of NUL bytes whose
    payload length [|topic| + |msg| + 2] is below the accepted bound 1024,
    the bytes [sendOut(topic, msg)] writes, fed to the receiver in [SYNC],
    yield exactly one dispatched FORWARD frame (so its checksum matched the
    one the encoder wrote), the receiver ends in [SYNC], and the dispatch of
    that frame hands exactly [topic] and [msg] to [internalPub]. *)
Theorem forward_roundtrip (m : Z -> bool) (r : Rx) (num : Z) (topic msg : string) :
  linkState r = SYNC -> length (hd r) = 8%nat -> length (fo r) = 4%nat ->
  nul_free topic = true -> nul_free msg = true ->
  (String.length topic + String.length msg + 2 < 1024)%nat ->
  m (Z.of_nat (String.length topic + String.length msg + 2)) = true ->
  exists r' f,
    rx_feed m (frame_bytes num MQTT topic msg) r = (r', [f]) /\
    linkState r' = SYNC /\ fr_cmd f = MQTT /\
    forall (mqttmatch : string -> string -> bool) (now : Z) (s : MuSerial),
      handle_frame mqttmatch now f s =
      snd (internalPub mqttmatch topic msg (set_lastMsg now s)).
Proof.
  intros Hst Hh Hf Ht Hm Hb Hmal.
  destruct (feed_frame m r num MQTT topic msg Hst Hh Hf ltac:(lia) Hmal)
    as (r' & Hfeed & Hsync & _).
  eexists r', _. split; [exact Hfeed|]. split; [exact Hsync|]. split; [reflexivity|].
  intros mm now s. apply handle_forward; assumption.
Qed.

(** ** C2 *)


(** ** C10 *)

(** C10 (short payload): when the byte [c] completes a checksum-valid frame
    whose payload holds a NUL but whose first string leaves no room for the
    second ([strlen + 2 > msgLen]), processing [c] only records the read
    time and the receiver's new state: nothing is published, [remoteName],
    [linkConnected] and [lastMsg] keep their values, and the receiver is
    back in [SYNC] with its buffer freed. *)
Theorem short_payload_noop (mm : string -> string -> bool) (m : Z -> bool)
  (now c : Z) (s : MuSerial) (r' : Rx) (f : Frame) :
  rx_ok (rx s) = true ->
  rx_assemble m c (rx s) = (r', Some f) ->
  In 0 (fr_payload f) ->
  Z.of_nat (strlen (fr_payload f)) + 2 > fr_len f ->
  let s' := rx_byte mm m now s c in
  s' = set_lastRead now (set_rx r' s) /\
  pubs s' = pubs s /\ remoteName s' = remoteName s /\
  linkConnected s' = linkConnected s /\ lastMsg s' = lastMsg s /\
  linkState (rx s') = SYNC /\ allocated (rx s') = false /\ msgBuf (rx s') = None.
Proof.
  intros Hok Ha _ Hs s'.
  assert (E : s' = set_lastRead now (set_rx r' s)).
  { unfold s', rx_byte. cbn [rx set_lastRead]. rewrite Ha.
    apply handle_short. exact Hs. }
  assert (Hsync : linkState r' = SYNC) by exact (rx_assemble_some_sync m c _ r' f Ha).
  assert (Hok' : rx_ok r' = true).
  { pose proof (rx_assemble_ok m c (rx s) Hok) as H. rewrite Ha in H. exact H. }
  destruct (rx_ok_sync r' Hok' Hsync) as [Hal Hmb].
  rewrite E. cbn. auto 10.
Qed.

(** ** C3 *)

(** C3 (zero-length payload, a divergence of the code): a header with the
    right version and start marker and [payloadLength = 0] does not take the
    receiver to footer accumulation.  If [malloc(0)] succeeds the receiver
    enters [MSG] with an empty buffer, and the next byte goes through the
    payload write [msgBuf[curMsg] = c] at index 0 (past the end of the
    buffer) and leaves the receiver in [MSG] with [curMsg = 1]; if it fails
    the receiver is back in [SYNC].  A header declaring a length of 1024 or
    more does take the receiver back to [SYNC] without allocating. *)
Theorem zero_length_payload (m : Z -> bool) (r : Rx) (num cmd c : Z) :
  linkState r = SYNC -> length (hd r) = 8%nat ->
  let h := [SOH; VER; num; cmd; 0; 0; STX; 0] in
  (m 0 = true ->
   linkState (fst (rx_feed m h r)) = MSG /\ msgLen (fst (rx_feed m h r)) = 0 /\
   msgBuf (fst (rx_feed m h r)) = Some [] /\
   linkState (fst (rx_feed m (h ++ [c]) r)) = MSG /\
   curMsg (fst (rx_feed m (h ++ [c]) r)) = 1 /\
   snd (rx_feed m (h ++ [c]) r) = []) /\
  (m 0 = false -> linkState (fst (rx_feed m h r)) = SYNC /\ snd (rx_feed m h r) = []) /\
  (forall hi lo : Z, 256 * hi + lo >= 1024 ->
   let r' := fst (rx_feed m [SOH; VER; num; cmd; hi; lo; STX; 0] r) in
   linkState r' = SYNC /\ allocated r' = allocated r /\ msgBuf r' = msgBuf r /\
   snd (rx_feed m [SOH; VER; num; cmd; hi; lo; STX; 0] r) = []).
Proof.
  intros Hst Hlen h. unfold h.
  split; [|split].
  - intros Hm. rewrite rx_feed_app, header_last by assumption.
    cbv zeta. change (256 * 0 + 0) with 0. change (VER =? VER) with true.
    change (STX =? STX) with true. change (0 <? 1024) with true.
    rewrite Hm. cbn -[rx_feed].
    repeat split; try reflexivity.
    all: cbn [rx_feed]; unfold rx_assemble; rx_norm; reflexivity.
  - intros Hm. rewrite header_last by assumption.
    cbv zeta. change (256 * 0 + 0) with 0. change (VER =? VER) with true.
    change (STX =? STX) with true. change (0 <? 1024) with true.
    rewrite Hm. split; reflexivity.
  - intros hi lo Hb. rewrite header_last by assumption. cbv zeta.
    change (VER =? VER) with true. change (STX =? STX) with true. cbn [negb orb].
    replace (256 * hi + lo <? 1024) with false by (symmetry; apply Z.ltb_ge; lia).
    repeat split; reflexivity.
Qed.

(** ** C4 *)

(** C4 (spurious start byte, corrected): fed from [SYNC] a spurious [SOH]
    and then a frame, the receiver takes the spurious byte as the start of
    a header, the frame's [SOH] as its version byte and the frame's low
    length byte as its payload-start marker.  When that byte is not [STX]
    ([payloadLength mod 256 <> 2]) the receiver is back in [SYNC] after
    the frame's first seven bytes, without allocating and without
    dispatching; it then skips every later byte other than [SOH], so when
    the rest of the frame holds no [SOH] the frame is not dispatched. *)
Theorem spurious_soh (m : Z -> bool) (r : Rx) (num cmd : Z) (topic msg : string) :
  linkState r = SYNC -> length (hd r) = 8%nat ->
  let len := Z.of_nat (String.length topic + String.length msg + 2) in
  len < 1024 -> len mod 256 <> STX ->
  let fb := frame_bytes num cmd topic msg in
  let r1 := fst (rx_feed m (SOH :: take 7 fb) r) in
  snd (rx_feed m (SOH :: take 7 fb) r) = [] /\
  linkState r1 = SYNC /\ allocated r1 = allocated r /\ msgBuf r1 = msgBuf r /\
  (Forall (fun c => c <> SOH) (drop 7 fb) -> rx_feed m (SOH :: fb) r = (r1, [])).
Proof.
  intros Hst Hlen len Hb Hlo fb r1.
  assert (E7 : SOH :: take 7 fb =
               [SOH; SOH; VER; num; cmd; u8 (len / 256); u8 (len mod 256); STX]).
  { unfold fb. rewrite frame_bytes_split. reflexivity. }
  assert (Hr : rx_feed m (SOH :: take 7 fb) r =
               (set_linkState SYNC (set_hLen 8
                  (set_hd [SOH; SOH; VER; num; cmd; u8 (len / 256); u8 (len mod 256); STX] r)),
                [])).
  { rewrite E7, header_last by assumption. cbv zeta.
    replace (u8 (len mod 256) =? STX) with false
      by (symmetry; apply Z.eqb_neq; unfold u8; rewrite Z.mod_mod by lia; exact Hlo).
    reflexivity. }
  unfold r1. rewrite Hr. cbn [fst snd]. rx_norm.
  split; [reflexivity|]. split; [reflexivity|]. split; [reflexivity|]. split; [reflexivity|].
  intros Hrest.
  replace (SOH :: fb) with ((SOH :: take 7 fb) ++ drop 7 fb)
    by (rewrite <- app_comm_cons, take_drop; reflexivity).
  rewrite rx_feed_app, Hr, sync_skip by (rx_norm; auto). reflexivity.
Qed.

(** ** C8 *)

(** C8 (outbound handler, corrected): a bus message whose originator is
    [remoteName] is dropped, and so is one whose topic matches
    [outgoingBlockList]; every other message, including one whose
    originator is this node's own [name], is sent as a FORWARD frame under
    its topic when that begins with ["<remoteName>/"] and under
    ["<remoteName>/" ++ topic] otherwise. *)
Theorem subsMsg_route (mm : string -> string -> bool) (topic msg originator : string)
  (s : MuSerial) :
  (originator = remoteName s -> subsMsg mm topic msg originator s = s) /\
  (originator <> remoteName s -> blocked mm (outgoingBlockList s) topic = true ->
   subsMsg mm topic msg originator s = s) /\
  (originator <> remoteName s -> blocked mm (outgoingBlockList s) topic = false ->
   starts_with (remoteName s ++ "/") topic ->
   subsMsg mm topic msg originator s = sendOut topic msg MQTT s) /\
  (originator <> remoteName s -> blocked mm (outgoingBlockList s) topic = false ->
   ~ starts_with (remoteName s ++ "/") topic ->
   subsMsg mm topic msg originator s = sendOut (remoteName s ++ "/" ++ topic) msg MQTT s).
Proof.
  unfold subsMsg. split; [|split; [|split]].
  - intros ->. rewrite String.eqb_refl. reflexivity.
  - intros Ho Hb. apply String.eqb_neq in Ho. rewrite Ho, Hb. reflexivity.
  - intros Ho Hb Hp. apply String.eqb_neq in Ho. rewrite Ho, Hb.
    apply prefix_eq_starts in Hp. rewrite Hp. reflexivity.
  - intros Ho Hb Hp. apply String.eqb_neq in Ho. rewrite Ho, Hb.
    destruct (prefix_eq topic (remoteName s ++ "/")) eqn:E; [|reflexivity].
    apply prefix_eq_starts in E. contradiction.
Qed.

(** ** C9 *)

(** C9 (block-list configuration, corrected): adding a pattern already in
    the list returns [false] and leaves the node unchanged, whatever the
    array's storage would do (the same answer as when a pattern cannot be
    added); removing a pattern that is not in the list returns [false] and
    leaves the node unchanged.  Both directions, both lists. *)
Theorem blocklist_dup_absent (maxSize : nat) (store_ok : bool) (topic : string)
  (s : MuSerial) :
  (In topic (outgoingBlockList s) -> outgoingBlockSet maxSize store_ok topic s = (false, s)) /\
  (In topic (incomingBlockList s) -> incomingBlockSet maxSize store_ok topic s = (false, s)) /\
  (~ In topic (outgoingBlockList s) -> outgoingBlockRemove topic s = (false, s)) /\
  (~ In topic (incomingBlockList s) -> incomingBlockRemove topic s = (false, s)).
Proof.
  unfold outgoingBlockSet, incomingBlockSet, outgoingBlockRemove, incomingBlockRemove.
  split; [|split; [|split]]; intros H.
  - rewrite existsb_eqb_In by exact H. reflexivity.
  - rewrite existsb_eqb_In by exact H. reflexivity.
  - rewrite find_index_not_In by exact H. reflexivity.
  - rewrite find_index_not_In by exact H. reflexivity.
Qed.

(** ** C7 *)

(** C7 (ping-receive timeout): with link checking on, the receiver idle in
    [SYNC], the link up and more than [pingReceiveTimeout] since the last
    message, one run of [loop] with no bytes available takes the link down
    and publishes exactly one ["disconnected"] event on
    ["<name>/link/<remoteName>"]; any number of further idle runs publish
    nothing more, and while the link is down the timeout checks never
    publish. *)
Theorem ping_timeout_once (mm : string -> string -> bool) (m : Z -> bool)
  (now : Z) (s : MuSerial) (later : list Z) :
  bCheckLink s = true -> linkState (rx s) = SYNC -> linkConnected s = true ->
  ulong (now - lastMsg s) > pingReceiveTimeout ->
  let s1 := loop mm m now [] s in
  linkConnected s1 = false /\
  pubs s1 = pubs s ++ [(link_topic s, "disconnected"%string, name s)] /\
  pubs (fold_left (fun st t => loop mm m t [] st) later s1) = pubs s1 /\
  (forall (t : Z) (st : MuSerial), linkConnected st = false ->
   pubs (check_timeouts t st) = pubs st).
Proof.
  intros Hb Hst Hc Ht s1.
  destruct (loop_empty mm m now s Hb) as (sp & E & Ec & Er & Ep & El & En & Erm & Eb).
  assert (E1 : s1 = set_linkConnected false
                      (publish (link_topic sp) "disconnected" (name sp) sp)).
  { unfold s1. rewrite E. unfold check_timeouts, in_sync.
    rewrite Ec, Hc, Er, Hst. cbn [orb negb LinkState_eqb].
    replace (ulong (now - lastMsg sp) >? pingReceiveTimeout) with true
      by (symmetry; apply Z.gtb_lt; rewrite El; lia).
    reflexivity. }
  assert (Hidle : forall st, bCheckLink st = true -> linkState (rx st) = SYNC ->
                    linkConnected st = false ->
                    forall l, pubs (fold_left (fun st t => loop mm m t [] st) l st) = pubs st).
  { intros st Hb' Hs' Hc' l. revert st Hb' Hs' Hc'.
    induction l as [|t l IH]; intros st Hb' Hs' Hc'; [reflexivity|]. simpl.
    destruct (loop_empty mm m t st Hb') as (sq & E' & Ec' & Er' & Ep' & _ & _ & _ & Eb').
    rewrite E', check_timeouts_idle by congruence.
    rewrite IH by congruence. exact Ep'. }
  split; [|split; [|split]].
  - rewrite E1. reflexivity.
  - rewrite E1. cbn. unfold link_topic. rewrite Ep, En, Erm. reflexivity.
  - apply Hidle; rewrite E1; cbn; congruence.
  - exact check_timeouts_quiet.
Qed.

(** ** C6 *)

(** C6 (the link flag, corrected): processing serial bytes never takes
    [linkConnected] from [true] to [false]; a byte takes it from [false]
    to [true] only by completing a checksum-valid frame whose command is
    PING (a FORWARD frame does not); a well-formed PING frame does set it
    and records the peer's name; and the timeout checks take it to [false]
    only on the read timeout (receiver outside [SYNC]) or the
    ping-receive timeout (receiver in [SYNC]). *)
Theorem link_flag_transitions (mm : string -> string -> bool) (m : Z -> bool) :
  (forall now input s, linkConnected s = true ->
   linkConnected (fold_left (rx_byte mm m now) input s) = true) /\
  (forall now s c, linkConnected s = false ->
   linkConnected (rx_byte mm m now s c) = true ->
   exists r' f, rx_assemble m c (rx s) = (r', Some f) /\ fr_cmd f = MUPING) /\
  (forall now s stamp peer, nul_free stamp = true -> nul_free peer = true ->
   let s' := handle_frame mm now
               {| fr_cmd := MUPING; fr_payload := mqtt_payload stamp peer;
                  fr_len := Z.of_nat (String.length stamp + String.length peer + 2) |} s in
   linkConnected s' = true /\ remoteName s' = peer) /\
  (forall now s, linkConnected s = true -> linkConnected (check_timeouts now s) = false ->
   (in_sync s = false /\ ulong (now - lastRead s) > readTimeout) \/
   (in_sync s = true /\ ulong (now - lastMsg s) > pingReceiveTimeout)).
Proof.
  split; [|split; [|split]].
  - intros now input. induction input as [|c input IH]; intros s H; [exact H|].
    simpl. apply IH. rewrite rx_byte_link.
    destruct (snd (rx_assemble m c (rx s))); [|exact H].
    apply handle_frame_link_up. exact H.
  - intros now s c H. rewrite rx_byte_link.
    destruct (rx_assemble m c (rx s)) as [r [f|]] eqn:E; cbn [snd fst]; [|congruence].
    intros Hup. exists r, f. split; [reflexivity|].
    apply (handle_frame_link_set mm now f (set_rx r (set_lastRead now s))); [exact H|exact Hup].
  - intros now s stamp peer Ht Hp s'.
    destruct (handle_ping mm now s stamp peer Ht Hp) as [A [B _]]. split; assumption.
  - intros now s H. unfold check_timeouts. rewrite H. cbn [orb].
    destruct (in_sync s) eqn:Es; cbn [negb].
    + destruct (ulong (now - lastMsg s) >? pingReceiveTimeout) eqn:Et.
      * intros _. right. split; [reflexivity|]. apply Z.gtb_lt in Et. lia.
      * rewrite H. discriminate.
    + destruct (ulong (now - lastRead s) >? readTimeout) eqn:Et.
      * intros _. left. split; [reflexivity|]. apply Z.gtb_lt in Et. lia.
      * rewrite H. discriminate.
Qed.

(** ** C5 *)

(** C5 (buffer discipline): in every state a node reaches, the receiver
    holds no payload buffer in [SYNC] (and [HEADER]) and holds one, flagged
    as allocated, in [MSG] and [CRC].  So every path back to [SYNC] -- a
    dispatched frame, a checksum mismatch, a bad terminator, the read
    timeout -- frees the buffer and clears the flag. *)
Theorem buffer_freed_at_sync (mm : string -> string -> bool) (m : Z -> bool)
  (maxSize : nat) (s : MuSerial) :
  reachable mm m maxSize s ->
  rx_ok (rx s) = true /\
  (linkState (rx s) = SYNC -> allocated (rx s) = false /\ msgBuf (rx s) = None).
Proof.
  intros H. pose proof (reachable_ok mm m maxSize s H) as Hok.
  split; [exact Hok|]. apply rx_ok_sync. exact Hok.
Qed.

(** * Instances of the claims *)

Lemma forward_roundtrip_witness :
  (linkState rx_init = SYNC /\ length (hd rx_init) = 8%nat /\ length (fo rx_init) = 4%nat /\
   nul_free "a/b" = true /\ nul_free "hi" = true /\
   (String.length "a/b" + String.length "hi" + 2 < 1024)%nat) /\
  exists r' f,
    rx_feed (fun _ => true) (frame_bytes 7 MQTT "a/b" "hi") rx_init = (r', [f]) /\
    linkState r' = SYNC /\ fr_cmd f = MQTT /\
    forall (mqttmatch : string -> string -> bool) (now : Z) (s : MuSerial),
      handle_frame mqttmatch now f s =
      snd (internalPub mqttmatch "a/b" "hi" (set_lastMsg now s)).
Proof.
  split; [repeat split; simpl; try reflexivity; lia|].
  apply (forward_roundtrip (fun _ => true) rx_init 7 "a/b" "hi");
    simpl; try reflexivity; lia.
Defined.



Lemma short_payload_noop_witness :
  let s := set_rx (fst (rx_feed (fun _ => true) (removelast short_frame) rx_init)) node_B in
  let r' := fst (rx_assemble (fun _ => true) 4 (rx s)) in
  let f := {| fr_cmd := MQTT; fr_payload := [0]; fr_len := 1 |} in
  (rx_ok (rx s) = true /\ rx_assemble (fun _ => true) 4 (rx s) = (r', Some f) /\
   In 0 (fr_payload f) /\ Z.of_nat (strlen (fr_payload f)) + 2 > fr_len f) /\
  let s' := rx_byte (fun _ _ => false) (fun _ => true) 9 s 4 in
  s' = set_lastRead 9 (set_rx r' s) /\
  pubs s' = pubs s /\ remoteName s' = remoteName s /\
  linkConnected s' = linkConnected s /\ lastMsg s' = lastMsg s /\
  linkState (rx s') = SYNC /\ allocated (rx s') = false /\ msgBuf (rx s') = None.
Proof.
  intros s r' f.
  split; [split; [|split; [|split]]; vm_compute; try reflexivity; left; reflexivity|].
  apply (short_payload_noop (fun _ _ => false) (fun _ => true) 9 4 s r' f);
    vm_compute; try reflexivity; left; reflexivity.
Defined.

Lemma zero_length_payload_witness :
  (linkState rx_init = SYNC /\ length (hd rx_init) = 8%nat) /\
  let h := [SOH; VER; 0; MQTT; 0; 0; STX; 0] in
  ((fun _ => true) 0 = true ->
   linkState (fst (rx_feed (fun _ => true) h rx_init)) = MSG /\
   msgLen (fst (rx_feed (fun _ => true) h rx_init)) = 0 /\
   msgBuf (fst (rx_feed (fun _ => true) h rx_init)) = Some [] /\
   linkState (fst (rx_feed (fun _ => true) (h ++ [65]) rx_init)) = MSG /\
   curMsg (fst (rx_feed (fun _ => true) (h ++ [65]) rx_init)) = 1 /\
   snd (rx_feed (fun _ => true) (h ++ [65]) rx_init) = []) /\
  ((fun _ => true) 0 = false ->
   linkState (fst (rx_feed (fun _ => true) h rx_init)) = SYNC /\
   snd (rx_feed (fun _ => true) h rx_init) = []) /\
  (forall hi lo : Z, 256 * hi + lo >= 1024 ->
   let r' := fst (rx_feed (fun _ => true) [SOH; VER; 0; MQTT; hi; lo; STX; 0] rx_init) in
   linkState r' = SYNC /\ allocated r' = allocated rx_init /\ msgBuf r' = msgBuf rx_init /\
   snd (rx_feed (fun _ => true) [SOH; VER; 0; MQTT; hi; lo; STX; 0] rx_init) = []).
Proof.
  split; [split; reflexivity|].
  apply (zero_length_payload (fun _ => true) rx_init 0 MQTT 65); reflexivity.
Defined.

Lemma spurious_soh_witness :
  (linkState rx_init = SYNC /\ length (hd rx_init) = 8%nat /\
   Z.of_nat (String.length "a" + String.length "b" + 2) < 1024 /\
   Z.of_nat (String.length "a" + String.length "b" + 2) mod 256 <> STX) /\
  let fb := frame_bytes 0 MQTT "a" "b" in
  let r1 := fst (rx_feed (fun _ => true) (SOH :: take 7 fb) rx_init) in
  snd (rx_feed (fun _ => true) (SOH :: take 7 fb) rx_init) = [] /\
  linkState r1 = SYNC /\ allocated r1 = allocated rx_init /\ msgBuf r1 = msgBuf rx_init /\
  (Forall (fun c => c <> SOH) (drop 7 fb) ->
   rx_feed (fun _ => true) (SOH :: fb) rx_init = (r1, [])).
Proof.
  split; [repeat split; first [reflexivity | vm_compute; discriminate]|].
  apply (spurious_soh (fun _ => true) rx_init 0 MQTT "a" "b");
    first [reflexivity | vm_compute; discriminate].
Defined.

(** The spurious start byte costs the frame: alone the bytes of
    [sendOut("a", "b")] give one frame, after an extra [SOH] none. *)
Lemma spurious_soh_cex :
  length (snd (rx_feed (fun _ => true) (frame_bytes 0 MQTT "a" "b") rx_init)) = 1%nat /\
  snd (rx_feed (fun _ => true) (SOH :: frame_bytes 0 MQTT "a" "b") rx_init) = [].
Proof. vm_compute. split; reflexivity. Defined.

(** The node ["A"] forwards a message it published itself. *)
Lemma subsMsg_route_cex :
  subsMsg (fun _ _ => false) "x" "1" "A" node_A = sendOut "B/x" "1" MQTT node_A /\
  subsMsg (fun _ _ => false) "x" "1" "A" node_A <> node_A.
Proof.
  split; [vm_compute; reflexivity|].
  intros E. apply (f_equal wire) in E. vm_compute in E. discriminate.
Defined.

(** Adding ["x"] a second time answers [false]; adding it the first time
    answers [true]. *)
Lemma blocklist_dup_absent_cex :
  fst (outgoingBlockSet 4 true "x" (set_outgoingBlockList ["x"%string] node_A)) = false /\
  fst (outgoingBlockSet 4 true "x" node_A) = true.
Proof. vm_compute. split; reflexivity. Defined.

Lemma ping_timeout_once_witness :
  let s := set_linkConnected true (begin 0 node_B) in
  (bCheckLink s = true /\ linkState (rx s) = SYNC /\ linkConnected s = true /\
   ulong (20 - lastMsg s) > pingReceiveTimeout) /\
  let s1 := loop (fun _ _ => false) (fun _ => true) 20 [] s in
  linkConnected s1 = false /\
  pubs s1 = pubs s ++ [(link_topic s, "disconnected"%string, name s)] /\
  pubs (fold_left (fun st t => loop (fun _ _ => false) (fun _ => true) t [] st) [21; 30] s1) =
    pubs s1 /\
  (forall (t : Z) (st : MuSerial), linkConnected st = false ->
   pubs (check_timeouts t st) = pubs st).
Proof.
  intros s.
  split; [repeat split; vm_compute; reflexivity|].
  apply (ping_timeout_once (fun _ _ => false) (fun _ => true) 20 s [21; 30]);
    vm_compute; reflexivity.
Defined.

(** A FORWARD frame is received and republished, yet the link stays down. *)
Lemma link_flag_transitions_cex :
  let s1 := fold_left (rx_byte (fun _ _ => false) (fun _ => true) 1)
              (frame_bytes 0 MQTT "x" "1") (begin 0 node_B) in
  linkConnected s1 = false /\ pubs s1 = [("x"%string, "1"%string, "A"%string)].
Proof. vm_compute. split; reflexivity. Defined.

Lemma buffer_freed_at_sync_witness :
  let s := loop (fun _ _ => false) (fun _ => true) 1 (frame_bytes 0 MQTT "x" "1")
             (begin 0 (MuSerial_new "B")) in
  reachable (fun _ _ => false) (fun _ => true) 4 s /\
  rx_ok (rx s) = true /\
  (linkState (rx s) = SYNC -> allocated (rx s) = false /\ msgBuf (rx s) = None).
Proof.
  intros s.
  assert (H : reachable (fun _ _ => false) (fun _ => true) 4 s)
    by (apply reachable_loop, reach_begin).
  split; [exact H|].
  apply (buffer_freed_at_sync (fun _ _ => false) (fun _ => true) 4 s). exact H.
Defined.

(** * Further properties of the code *)

(** ** The byte loop as receiver plus dispatch *)

Lemma handle_frame_set_rx mm now f r s :
  handle_frame mm now f (set_rx r s) = set_rx r (handle_frame mm now f s).
Proof.
  destruct s. unfold handle_frame, internalPub, publish. cbn.
  repeat case_match; reflexivity.
Qed.

Lemma handle_frame_set_lastRead mm now f t s :
  handle_frame mm now f (set_lastRead t s) = set_lastRead t (handle_frame mm now f s).
Proof.
  destruct s. unfold handle_frame, internalPub, publish. cbn.
  repeat case_match; reflexivity.
Qed.

Lemma dispatch_set_rx mm now fs r s :
  fold_left (fun st f => handle_frame mm now f st) fs (set_rx r s) =
  set_rx r (fold_left (fun st f => handle_frame mm now f st) fs s).
Proof.
  revert s; induction fs as [|f fs IH]; intros s; [reflexivity|].
  simpl. rewrite handle_frame_set_rx. apply IH.
Qed.

Lemma dispatch_set_lastRead mm now fs t s :
  fold_left (fun st f => handle_frame mm now f st) fs (set_lastRead t s) =
  set_lastRead t (fold_left (fun st f => handle_frame mm now f st) fs s).
Proof.
  revert s; induction fs as [|f fs IH]; intros s; [reflexivity|].
  simpl. rewrite handle_frame_set_lastRead. apply IH.
Qed.

Lemma set_rx_lastRead r t s : set_rx r (set_lastRead t s) = set_lastRead t (set_rx r s).
Proof. destruct s; reflexivity. Qed.

Lemma set_lastRead_rx_twice t r r' s :
  set_lastRead t (set_rx r (set_lastRead t (set_rx r' s))) = set_lastRead t (set_rx r s).
Proof. destruct s; reflexivity. Qed.

Lemma rx_feed_cons m c cs r :
  rx_feed m (c :: cs) r =
  let (r1, o) := rx_assemble m c r in
  let (r2, fs) := rx_feed m cs r1 in
  (r2, match o with Some f => f :: fs | None => fs end).
Proof. reflexivity. Qed.

Lemma rx_byte_as mm m now s c :
  rx_byte mm m now s c =
  set_lastRead now (set_rx (fst (rx_assemble m c (rx s)))
    (fold_left (fun st f => handle_frame mm now f st)
       (match snd (rx_assemble m c (rx s)) with Some f => [f] | None => [] end) s)).
Proof.
  unfold rx_byte. cbn [rx set_lastRead].
  destruct (rx_assemble m c (rx s)) as [r [f|]]; cbn [fst snd fold_left].
  - rewrite handle_frame_set_rx, handle_frame_set_lastRead, set_rx_lastRead. reflexivity.
  - rewrite set_rx_lastRead. reflexivity.
Qed.

(** The [while] loop of [loop] over a non-empty run of bytes. *)
Lemma rx_bytes_dispatch (mm : string -> string -> bool) (m : Z -> bool) (now c : Z)
  (cs : list Z) (s : MuSerial) :
  fold_left (rx_byte mm m now) (c :: cs) s =
  set_lastRead now (set_rx (fst (rx_feed m (c :: cs) (rx s)))
    (fold_left (fun st f => handle_frame mm now f st) (snd (rx_feed m (c :: cs) (rx s))) s)).
Proof.
  revert c s. induction cs as [|c' cs IH]; intros c s.
  - cbn [fold_left]. rewrite rx_byte_as. cbn [rx_feed].
    destruct (rx_assemble m c (rx s)) as [r [f|]]; reflexivity.
  - cbn [fold_left]. cbn [fold_left] in IH. rewrite IH, rx_byte_rx.
    rewrite (rx_byte_as mm m now s c), (rx_feed_cons m c (c' :: cs) (rx s)).
    destruct (rx_assemble m c (rx s)) as [r1 o] eqn:E. cbn [fst snd].
    destruct (rx_feed m (c' :: cs) r1) as [r2 fs] eqn:E2. cbn [fst snd].
    rewrite dispatch_set_lastRead, dispatch_set_rx, set_lastRead_rx_twice.
    destruct o as [f|]; reflexivity.
Qed.

(** X1: processing a run of bytes one at a time, as the [while] loop of
    [loop] does, is the same as running the receiver over the whole run and
    then dispatching the frames it completed, in order; the dispatch never
    sees the receiver state, and the read time is the loop's uptime. *)
Theorem byte_loop_dispatch (mm : string -> string -> bool) (m : Z -> bool) (now c : Z)
  (cs : list Z) (s : MuSerial) :
  fold_left (rx_byte mm m now) (c :: cs) s =
  set_lastRead now (set_rx (fst (rx_feed m (c :: cs) (rx s)))
    (fold_left (fun st f => handle_frame mm now f st) (snd (rx_feed m (c :: cs) (rx s))) s)).
Proof. apply rx_bytes_dispatch. Qed.

(** ** The receiver on a framed block *)

(** The last footer byte, whatever the footer holds. *)
Lemma step_crc_last m r c :
  linkState r = CRC -> cLen r = 3 ->
  let f := <[3%nat := c]> (fo r) in
  let buf := match msgBuf r with Some b => b | None => [] end in
  rx_assemble m c r =
  (set_linkState SYNC (free_buf (set_cLen 4 (set_fo f r))),
   if (fo_etx f =? ETX) && (fo_eot f =? EOT) &&
      (crc (take 2 f) (crc (take (Z.to_nat (msgLen r)) buf) (crc (drop 1 (hd r)) 0))
       =? fo_crc f)
   then Some {| fr_cmd := hd_cmd (hd r); fr_payload := buf; fr_len := msgLen r |}
   else None).
Proof.
  intros H Hl f buf. unfold rx_assemble. rewrite H, Hl. cbv zeta.
  change (Z.to_nat 3) with 3%nat. change (u16 (3 + 1)) with 4.
  change (4 =? 4) with true. cbv iota beta. fold f.
  cbn [msgBuf hd msgLen set_cLen set_fo]. fold buf.
  destruct (fo_etx f =? ETX), (fo_eot f =? EOT); cbn [negb orb andb]; try reflexivity.
  destruct (_ =? fo_crc f); reflexivity.
Qed.

(** The receiver reading any four footer bytes from [CRC]. *)
Lemma feed_footer_any (m : Z -> bool) (r : Rx) (buf : list Z) (e p cc o : Z) :
  linkState r = CRC -> cLen r = 0 -> length (fo r) = 4%nat -> msgBuf r = Some buf ->
  rx_feed m [e; p; cc; o] r =
  (set_linkState SYNC (free_buf (set_cLen 4 (set_fo [e; p; cc; o] r))),
   if (e =? ETX) && (o =? EOT) &&
      (crc [e; p] (crc (take (Z.to_nat (msgLen r)) buf) (crc (drop 1 (hd r)) 0)) =? cc)
   then [{| fr_cmd := hd_cmd (hd r); fr_payload := buf; fr_len := msgLen r |}]
   else []).
Proof.
  intros Hst Hc Hlen Hb.
  destruct r as [st h hl ml cm mb al f cl]; cbn [linkState hd fo cLen msgBuf msgLen] in *.
  subst st cl mb.
  do 5 (destruct f as [|? f]; simpl in Hlen; try discriminate).
  do 3 cstep.
  match goal with |- context [rx_feed ?m (?c :: ?cs) ?r] =>
    rewrite (rx_feed_cons m c cs r), (step_crc_last m r c eq_refl eq_refl) end.
  cbn. destruct (_ && _ && _); reflexivity.
Qed.

(** The receiver from [SYNC] on a header with the right markers, a payload
    of the declared nonzero length below the bound, and any footer. *)
Lemma feed_framed (m : Z -> bool) (r : Rx) (w1 w2 w3 w4 w5 w6 w7 : Z) (P : list Z)
  (e p cc o : Z) :
  linkState r = SYNC -> length (hd r) = 8%nat -> length (fo r) = 4%nat ->
  w1 = VER -> w6 = STX -> 256 * w4 + w5 = Z.of_nat (length P) ->
  (0 < length P < 1024)%nat -> m (Z.of_nat (length P)) = true ->
  exists r',
    rx_feed m ([SOH; w1; w2; w3; w4; w5; w6; w7] ++ P ++ [e; p; cc; o]) r =
      (r', if (e =? ETX) && (o =? EOT) &&
              (crc ([w1; w2; w3; w4; w5; w6; w7] ++ P ++ [e; p]) 0 =? cc)
           then [{| fr_cmd := w3; fr_payload := P; fr_len := Z.of_nat (length P) |}]
           else []) /\
    linkState r' = SYNC /\ allocated r' = false /\ msgBuf r' = None /\
    length (hd r') = 8%nat /\ length (fo r') = 4%nat.
Proof.
  intros Hst Hh Hf -> -> Hml Hb Hm.
  rewrite rx_feed_app, header_last by assumption. cbv zeta.
  change (VER =? VER) with true. change (STX =? STX) with true. cbn [negb orb].
  rewrite Hml.
  replace (Z.of_nat (length P) <? 1024) with true by (symmetry; apply Z.ltb_lt; lia).
  rewrite Hm. rewrite rx_feed_app.
  match goal with |- context [rx_feed m P ?r1] =>
    rewrite (feed_payload m P r1 (repeat 0 (Z.to_nat (Z.of_nat (length P)))) 0
               eq_refl eq_refl eq_refl)
  end; cbn [msgLen set_allocated set_linkState set_curMsg set_msgBuf set_msgLen set_hLen set_hd];
    try (rewrite repeat_length); try lia.
  2: { destruct P; simpl in *; [lia|discriminate]. }
  simpl take. simpl app.
  rewrite (feed_footer_any m _ P); cbn [linkState cLen fo msgBuf msgLen hd set_cLen set_linkState
                                      set_curMsg set_msgBuf]; auto.
  rx_norm. rewrite Nat2Z.id, take_ge by lia. cbn [drop hd_cmd nth].
  cbn [crc]. rewrite crc_app. cbn [crc].
  eexists; split; [reflexivity|]. unfold free_buf; simpl. auto.
Qed.

(** ** The checksum as an XOR *)

Lemma crc_init (l : list Z) (y : Z) : crc l y = Z.lxor y (crc l 0).
Proof.
  revert y; induction l as [|a l IH]; intros y; simpl; [rewrite Z.lxor_0_r; reflexivity|].
  rewrite (IH (Z.lxor y a)), (IH (Z.lxor 0 a)), Z.lxor_0_l, Z.lxor_assoc. reflexivity.
Qed.

Lemma crc_lxor (l : list Z) (y d : Z) : crc l (Z.lxor y d) = Z.lxor (crc l y) d.
Proof.
  rewrite (crc_init l (Z.lxor y d)), (crc_init l y).
  rewrite !Z.lxor_assoc, (Z.lxor_comm d). reflexivity.
Qed.

(** Changing the byte at [i] changes the checksum by the XOR of the old
    and the new value. *)
Lemma crc_insert (l : list Z) (i : nat) (v x : Z) :
  (i < length l)%nat -> crc (<[i := v]> l) x = Z.lxor (crc l x) (Z.lxor (nth i l 0) v).
Proof.
  revert i x; induction l as [|a l IH]; intros [|i] x Hi; simpl in *; try lia.
  - rewrite <- crc_lxor. f_equal.
    rewrite Z.lxor_assoc, <- (Z.lxor_assoc a a), Z.lxor_nilpotent, Z.lxor_0_l. reflexivity.
  - apply IH. lia.
Qed.

Lemma lxor_changes (a b c : Z) : b <> c -> Z.lxor a (Z.lxor b c) <> a.
Proof.
  intros Hbc E. apply Hbc. apply Z.lxor_eq_0_iff.
  apply (f_equal (Z.lxor a)) in E.
  rewrite <- Z.lxor_assoc, Z.lxor_nilpotent, Z.lxor_0_l in E. exact E.
Qed.

(** A framed block whose footer check fails is dropped. *)
Lemma framed_reject (m : Z -> bool) (r : Rx) (w1 w2 w3 w4 w5 w6 w7 : Z) (P : list Z)
  (e p cc o : Z) :
  linkState r = SYNC -> length (hd r) = 8%nat -> length (fo r) = 4%nat ->
  w1 = VER -> w6 = STX -> 256 * w4 + w5 = Z.of_nat (length P) ->
  (0 < length P < 1024)%nat -> m (Z.of_nat (length P)) = true ->
  (e =? ETX) && (o =? EOT) && (crc ([w1; w2; w3; w4; w5; w6; w7] ++ P ++ [e; p]) 0 =? cc)
    = false ->
  exists r',
    rx_feed m ([SOH; w1; w2; w3; w4; w5; w6; w7] ++ P ++ [e; p; cc; o]) r = (r', []) /\
    linkState r' = SYNC /\ allocated r' = false /\ msgBuf r' = None.
Proof.
  intros Hst Hh Hf H1 H6 Hml Hb Hm Hc.
  destruct (feed_framed m r w1 w2 w3 w4 w5 w6 w7 P e p cc o Hst Hh Hf H1 H6 Hml Hb Hm)
    as (r' & E & A & B & C & _).
  rewrite Hc in E. exists r'. auto.
Qed.

Lemma lxor_eqb_false (a b c : Z) : b <> c -> (Z.lxor a (Z.lxor b c) =? a) = false.
Proof. intros H. apply Z.eqb_neq, lxor_changes, H. Qed.

(** X2: one changed byte of a frame, in the block number, the command, the
    header pad, the payload or the footer, makes the receiver drop the
    frame: it delivers nothing and is back in [SYNC] with its buffer freed. *)
Theorem corrupted_byte_rejected (m : Z -> bool) (r : Rx) (num cmd : Z)
  (topic msg : string) (k : nat) (v : Z) :
  linkState r = SYNC -> length (hd r) = 8%nat -> length (fo r) = 4%nat ->
  (String.length topic + String.length msg + 2 < 1024)%nat ->
  m (Z.of_nat (String.length topic + String.length msg + 2)) = true ->
  (k = 2 \/ k = 3 \/ k = 7 \/ 8 <= k < length (frame_bytes num cmd topic msg))%nat ->
  nth k (frame_bytes num cmd topic msg) 0 <> v ->
  exists r',
    rx_feed m (<[k := v]> (frame_bytes num cmd topic msg)) r = (r', []) /\
    linkState r' = SYNC /\ allocated r' = false /\ msgBuf r' = None.
Proof.
  intros Hst Hh Hf Hb Hm Hk Hv.
  rewrite frame_bytes_split in Hk, Hv |- *. cbv zeta in Hk, Hv |- *.
  set (n := (String.length topic + String.length msg + 2)%nat) in *.
  set (P := mqtt_payload topic msg) in *.
  assert (HP : length P = n) by apply length_mqtt_payload.
  set (hi := u8 (Z.of_nat n / 256)) in *. set (lo := u8 (Z.of_nat n mod 256)) in *.
  assert (Hhl : 256 * hi + lo = Z.of_nat (length P)) by (rewrite HP; apply u8_hi_lo; lia).
  assert (Hpos : (0 < length P < 1024)%nat) by lia.
  rewrite <- HP in Hm.
  rewrite !length_app in Hk. cbn [length] in Hk.
  destruct Hk as [->|[->|[->|Hk]]];
    [ rewrite insert_app_l by (cbn [length]; lia); cbn [insert list_insert];
      cbn [nth app] in Hv;
      apply framed_reject; try assumption; try reflexivity;
      rewrite !Z.eqb_refl; cbn [andb]; rewrite !crc_app .. | ].
  - change (crc [VER; v; cmd; hi; lo; STX; 0] 0)
      with (crc (<[1%nat := v]> [VER; num; cmd; hi; lo; STX; 0]) 0).
    rewrite crc_insert by (cbn; lia). rewrite !crc_lxor.
    apply lxor_eqb_false. exact Hv.
  - change (crc [VER; num; v; hi; lo; STX; 0] 0)
      with (crc (<[2%nat := v]> [VER; num; cmd; hi; lo; STX; 0]) 0).
    rewrite crc_insert by (cbn; lia). rewrite !crc_lxor.
    apply lxor_eqb_false. exact Hv.
  - change (crc [VER; num; cmd; hi; lo; STX; v] 0)
      with (crc (<[6%nat := v]> [VER; num; cmd; hi; lo; STX; 0]) 0).
    rewrite crc_insert by (cbn; lia). rewrite !crc_lxor.
    apply lxor_eqb_false. exact Hv.
  - rewrite app_nth2 in Hv by (cbn [length]; lia). cbn [length] in Hv.
    rewrite insert_app_r_alt by (cbn [length]; lia). cbn [length].
    destruct (Nat.lt_ge_cases k (8 + length P)) as [Hlt|Hge].
    + rewrite app_nth1 in Hv by lia.
      rewrite insert_app_l by lia.
      apply framed_reject; try assumption; try reflexivity;
        rewrite ?length_insert; try assumption.
      rewrite !Z.eqb_refl. cbn [andb]. rewrite !crc_app.
      rewrite crc_insert by lia. rewrite !crc_lxor.
      apply lxor_eqb_false. exact Hv.
    + rewrite app_nth2 in Hv by lia.
      rewrite insert_app_r_alt by lia.
      destruct (k - 8 - length P)%nat as [|[|[|[|j]]]] eqn:Ej;
        [ | | | | lia ]; cbn [insert list_insert]; cbn [nth] in Hv;
        apply framed_reject; try assumption; try reflexivity.
      * rewrite (proj2 (Z.eqb_neq v ETX)) by congruence. reflexivity.
      * rewrite !Z.eqb_refl. cbn [andb]. rewrite !crc_app.
        change (crc [ETX; v] (crc P (crc [VER; num; cmd; hi; lo; STX; 0] 0)))
          with (crc (<[1%nat := v]> [ETX; 0]) (crc P (crc [VER; num; cmd; hi; lo; STX; 0] 0))).
        rewrite crc_insert by (cbn; lia).
        apply lxor_eqb_false. exact Hv.
      * rewrite !Z.eqb_refl. cbn [andb]. apply Z.eqb_neq. intros E. apply Hv.
        rewrite <- E. rewrite !crc_app. reflexivity.
      * rewrite (proj2 (Z.eqb_neq v EOT)) by congruence.
        rewrite andb_false_r. reflexivity.
Qed.

Lemma corrupted_byte_rejected_witness :
  (nth 9 (frame_bytes 7 MQTT "a/b" "hi") 0 <> 0 /\
   (9 < length (frame_bytes 7 MQTT "a/b" "hi"))%nat) /\
  exists r',
    rx_feed (fun _ => true) (<[9%nat := 0]> (frame_bytes 7 MQTT "a/b" "hi")) rx_init = (r', []) /\
    linkState r' = SYNC /\ allocated r' = false /\ msgBuf r' = None.
Proof.
  split; [split; [vm_compute; discriminate | vm_compute; lia] |].
  apply (corrupted_byte_rejected (fun _ => true) rx_init 7 MQTT "a/b" "hi" 9 0).
  - reflexivity.
  - reflexivity.
  - reflexivity.
  - vm_compute. lia.
  - reflexivity.
  - right. right. right. split; [lia | vm_compute; lia].
  - vm_compute. discriminate.
Defined.

(** X3: a stream made of frames written by [sendOut], each preceded by any
    bytes other than [SOH], is decoded into exactly those frames, in order,
    when every payload is below the bound and its allocation succeeds; the
    receiver ends in [SYNC] holding no buffer. *)
Theorem frame_stream (m : Z -> bool) (r : Rx) (cs : list chunk) :
  linkState r = SYNC -> length (hd r) = 8%nat -> length (fo r) = 4%nat ->
  forallb (chunk_ok m) cs = true ->
  exists r',
    rx_feed m (concat (map chunk_bytes cs)) r = (r', map chunk_frame cs) /\
    linkState r' = SYNC /\ length (hd r') = 8%nat /\ length (fo r') = 4%nat /\
    (cs <> [] -> allocated r' = false /\ msgBuf r' = None).
Proof.
  revert r. induction cs as [|c cs IH]; intros r Hst Hh Hf Hok.
  - exists r. split; [reflexivity |]. split; [exact Hst |]. split; [exact Hh |].
    split; [exact Hf |]. intros C. congruence.
  - cbn [forallb] in Hok. apply andb_prop in Hok as [Hc Hok].
    destruct c as [noise [[[num cmd] topic] msg]].
    cbn [chunk_ok] in Hc. apply andb_prop in Hc as [Hc Hm].
    apply andb_prop in Hc as [Hn Hb]. apply Z.ltb_lt in Hb.
    assert (Hsk : rx_feed m noise r = (r, [])).
    { apply sync_skip; [exact Hst |].
      apply List.Forall_forall. intros b Hin. rewrite forallb_forall in Hn.
      specialize (Hn b Hin). apply negb_true_iff, Z.eqb_neq in Hn. exact Hn. }
    destruct (feed_frame m r num cmd topic msg Hst Hh Hf Hb Hm)
      as (r1 & E1 & S1 & A1 & B1 & H1 & F1).
    destruct (IH r1 S1 H1 F1 Hok) as (r2 & E2 & S2 & H2 & F2 & AB2).
    exists r2. cbn [map concat chunk_bytes]. rewrite !rx_feed_app, Hsk, E1, E2.
    split; [reflexivity |]. repeat split; auto.
    + destruct cs; [cbn in E2; injection E2 as <-; exact A1 | apply AB2; discriminate].
    + destruct cs; [cbn in E2; injection E2 as <-; exact B1 | apply AB2; discriminate].
Qed.

Lemma frame_stream_witness :
  let cs : list chunk := [([0; 7; 255], (0, MQTT, "a/b", "hi"));
                          ([], (1, MUPING, "42", "A"))]%string in
  (linkState rx_init = SYNC /\ length (hd rx_init) = 8%nat /\
   length (fo rx_init) = 4%nat /\ forallb (chunk_ok (fun _ => true)) cs = true) /\
  exists r',
    rx_feed (fun _ => true) (concat (map chunk_bytes cs)) rx_init = (r', map chunk_frame cs) /\
    linkState r' = SYNC /\ length (hd r') = 8%nat /\ length (fo r') = 4%nat /\
    (cs <> [] -> allocated r' = false /\ msgBuf r' = None).
Proof.
  intros cs. split; [repeat split; reflexivity |].
  apply frame_stream; reflexivity.
Defined.

(** ** The ping handshake *)

Lemma nul_free_cons (ch : ascii) (acc : string) :
  nul_free (String ch acc) =
  negb (Z.of_nat (nat_of_ascii ch) =? 0) && nul_free acc.
Proof. reflexivity. Qed.

Lemma ltoa_digits_nul_free (fuel : nat) (v radix : Z) (acc : string) :
  0 < radix <= 36 -> nul_free acc = true ->
  nul_free (ltoa_digits fuel v radix acc) = true.
Proof.
  intros Hr. revert v acc. induction fuel as [|fuel IH]; intros v acc Hacc; [exact Hacc |].
  cbn [ltoa_digits].
  assert (Hch : nul_free (String (ascii_of_nat (Z.to_nat
            (if v mod radix <? 10 then 48 + v mod radix else 87 + v mod radix))) acc) = true).
  { rewrite nul_free_cons, Hacc, andb_true_r.
    pose proof (Z.mod_pos_bound v radix ltac:(lia)) as Hd.
    rewrite nat_ascii_embedding.
    - destruct (v mod radix <? 10); apply negb_true_iff, Z.eqb_neq; lia.
    - destruct (v mod radix <? 10); lia. }
  destruct (v / radix =? 0); [exact Hch | apply IH, Hch].
Qed.

Lemma ltoa_digits_length (fuel : nat) (v radix : Z) (acc : string) :
  (String.length (ltoa_digits fuel v radix acc) <= fuel + String.length acc)%nat.
Proof.
  revert v acc. induction fuel as [|fuel IH]; intros v acc; cbn [ltoa_digits]; [lia |].
  destruct (_ =? 0).
  - cbn [String.length]. lia.
  - etransitivity; [apply IH |]. cbn [String.length]. lia.
Qed.

(** The command dispatch of a PING frame carrying [stamp NUL peer NUL]. *)
Lemma handle_ping_eq (mm : string -> string -> bool) (now : Z) (s : MuSerial)
  (stamp peer : string) :
  nul_free stamp = true -> nul_free peer = true ->
  handle_frame mm now
    {| fr_cmd := MUPING; fr_payload := mqtt_payload stamp peer;
       fr_len := Z.of_nat (String.length stamp + String.length peer + 2) |} s =
  let s1 := set_lastMsg now (set_remoteName peer (set_lastMsg now s)) in
  if negb (linkConnected s1)
  then publish (link_topic s1) "connected" (name s1) (set_linkConnected true s1)
  else s1.
Proof.
  intros Ht Hm. unfold handle_frame, mqtt_payload. cbn [fr_payload fr_len fr_cmd].
  simpl app.
  rewrite (strlen_nul_free stamp) by exact Ht.
  rewrite drop_after_string, nul_free_strlen_end by exact Hm.
  rewrite cstr_end by exact Hm.
  replace (Z.of_nat (String.length stamp) + 2 <=?
           Z.of_nat (String.length stamp + String.length peer + 2)) with true
    by (symmetry; apply Z.leb_le; lia).
  replace (Z.of_nat (String.length peer) + Z.of_nat (String.length stamp) + 2 <=?
           Z.of_nat (String.length stamp + String.length peer + 2)) with true
    by (symmetry; apply Z.leb_le; lia).
  reflexivity.
Qed.

(** X4: the bytes node [a] writes in [ping] at uptime [t], read by the
    [loop] of a node [b] whose receiver is idle, bring [b]'s link up with
    [a]'s name as peer name and refresh its liveness times; [b] publishes
    ["connected"] on ["<b>/link/<a>"] once if its link was down, and
    nothing otherwise, and writes nothing. *)
Theorem ping_handshake (mm : string -> string -> bool) (m : Z -> bool) (t now : Z)
  (a b : MuSerial) :
  0 <= t ->
  linkState (rx b) = SYNC -> length (hd (rx b)) = 8%nat -> length (fo (rx b)) = 4%nat ->
  nul_free (name a) = true -> (String.length (name a) < 950)%nat ->
  m (Z.of_nat (String.length (ltoa t 15) + String.length (name a) + 2)) = true ->
  let b' := fold_left (rx_byte mm m now) (drop (length (wire a)) (wire (ping t a))) b in
  linkConnected b' = true /\ remoteName b' = name a /\
  lastMsg b' = now /\ lastRead b' = now /\
  linkState (rx b') = SYNC /\ allocated (rx b') = false /\ msgBuf (rx b') = None /\
  wire b' = wire b /\
  pubs b' = pubs b ++ (if linkConnected b then []
                       else [((name b ++ "/link/" ++ name a)%string, "connected"%string, name b)]).
Proof.
  intros Ht Hst Hh Hf Hn Hl Hm b'.
  assert (Hs : nul_free (ltoa t 15) = true)
    by (apply ltoa_digits_nul_free; [lia | reflexivity]).
  assert (Hsl : (String.length (ltoa t 15) <= 64)%nat)
    by (apply (ltoa_digits_length 64 t 15 EmptyString)).
  assert (Hw : drop (length (wire a)) (wire (ping t a)) =
               frame_bytes (blockNum a) MUPING (ltoa t 15) (name a)).
  { unfold ping, sendOut. cbn [wire set_lastPingSent set_blockNum set_wire].
    rewrite drop_app_length. reflexivity. }
  destruct (feed_frame m (rx b) (blockNum a) MUPING (ltoa t 15) (name a) Hst Hh Hf
              ltac:(lia) Hm) as (r' & E & S' & A' & B' & _).
  unfold b'. rewrite Hw. rewrite frame_bytes_split in E |- *. cbv zeta in E |- *.
  cbn [app] in E |- *. rewrite rx_bytes_dispatch, E. cbn [fst snd fold_left].
  rewrite handle_ping_eq by assumption. cbv zeta.
  destruct (linkConnected b) eqn:Ec; cbn; rewrite ?Ec; cbn;
    repeat split; auto; rewrite ?app_nil_r; reflexivity.
Qed.

Lemma ping_handshake_witness :
  let b' := fold_left (rx_byte (fun _ _ => false) (fun _ => true) 20000)
              (drop (length (wire node_A)) (wire (ping 19000 node_A))) node_B in
  (0 <= 19000 /\ linkState (rx node_B) = SYNC /\ nul_free (name node_A) = true) /\
  linkConnected b' = true /\ remoteName b' = name node_A /\
  lastMsg b' = 20000 /\ lastRead b' = 20000 /\
  linkState (rx b') = SYNC /\ allocated (rx b') = false /\ msgBuf (rx b') = None /\
  wire b' = wire node_B /\
  pubs b' = pubs node_B ++ (if linkConnected node_B then []
                       else [((name node_B ++ "/link/" ++ name node_A)%string,
                              "connected"%string, name node_B)]).
Proof.
  intros b'. split; [split; [lia | split; reflexivity] |].
  apply (ping_handshake (fun _ _ => false) (fun _ => true) 19000 20000 node_A node_B).
  - lia.
  - reflexivity.
  - reflexivity.
  - reflexivity.
  - reflexivity.
  - vm_compute. lia.
  - reflexivity.
Defined.

(** ** Recovery after the read timeout *)

Lemma free_buf_hd_fo r : hd (free_buf r) = hd r /\ fo (free_buf r) = fo r /\
  linkState (free_buf r) = linkState r.
Proof. unfold free_buf. case_match; repeat split; reflexivity. Qed.

Lemma rx_assemble_hd_fo m c r :
  length (hd (fst (rx_assemble m c r))) = length (hd r) /\
  length (fo (fst (rx_assemble m c r))) = length (fo r).
Proof.
  unfold rx_assemble.
  destruct (linkState r); repeat case_match; cbn [fst];
    cbn [hd fo set_linkState set_allocated set_curMsg set_msgBuf set_msgLen set_hLen
         set_hd set_cLen set_fo];
    rewrite ?(proj1 (free_buf_hd_fo _)), ?(proj1 (proj2 (free_buf_hd_fo _)));
    cbn; rewrite ?length_insert; split; reflexivity.
Qed.

Lemma check_timeouts_hd_fo now s :
  hd (rx (check_timeouts now s)) = hd (rx s) /\ fo (rx (check_timeouts now s)) = fo (rx s).
Proof.
  unfold check_timeouts.
  repeat (case_match; cbn [rx set_rx set_linkConnected publish set_pubs]);
    rewrite ?(proj1 (free_buf_hd_fo _)), ?(proj1 (proj2 (free_buf_hd_fo _)));
    split; reflexivity.
Qed.

Lemma check_timeouts_read_sync now s :
  ulong (now - lastRead s) > readTimeout -> linkState (rx (check_timeouts now s)) = SYNC.
Proof.
  intros Ht. unfold check_timeouts, in_sync.
  destruct (LinkState_eqb (linkState (rx s)) SYNC) eqn:Es; cbn [negb].
  - assert (E : linkState (rx s) = SYNC) by (destruct (linkState (rx s)); try discriminate; reflexivity).
    repeat (case_match; cbn [rx set_rx set_linkConnected publish set_pubs]); exact E.
  - rewrite orb_true_r. cbn [negb].
    replace (ulong (now - lastRead s) >? readTimeout) with true by (symmetry; apply Z.gtb_lt; lia).
    cbn [rx set_rx]. rewrite (proj2 (proj2 (free_buf_hd_fo _))).
    cbn [linkConnected set_rx]. destruct (linkConnected s); reflexivity.
Qed.

Lemma reachable_hd_fo mm m maxSize s : reachable mm m maxSize s ->
  length (hd (rx s)) = 8%nat /\ length (fo (rx s)) = 4%nat.
Proof.
  induction 1 as [nm now|now s _ IH|now c s _ IH|now s _ IH|topic msg o s _ IH
                 |b topic s _ IH|topic s _ IH|b topic s _ IH|topic s _ IH].
  - split; reflexivity.
  - exact IH.
  - rewrite rx_byte_rx, !(proj1 (rx_assemble_hd_fo _ _ _)), (proj2 (rx_assemble_hd_fo _ _ _)).
    exact IH.
  - rewrite (proj1 (check_timeouts_hd_fo _ _)), (proj2 (check_timeouts_hd_fo _ _)). exact IH.
  - rewrite subsMsg_rx. exact IH.
  - unfold outgoingBlockSet. repeat case_match; exact IH.
  - unfold outgoingBlockRemove. repeat case_match; exact IH.
  - unfold incomingBlockSet. repeat case_match; exact IH.
  - unfold incomingBlockRemove. repeat case_match; exact IH.
Qed.

(** X5: whatever a node has read before, once the end of a [loop] pass
    finds the read timeout elapsed, the receiver is back in [SYNC], and the
    next frame [sendOut] writes for a payload within the bound (whose
    allocation succeeds) is received whole and dispatched, with the receiver
    back in [SYNC] after it. *)
Theorem resync_after_read_timeout (mm : string -> string -> bool) (m : Z -> bool)
  (maxSize : nat) (now now' : Z) (s : MuSerial) (num cmd : Z) (topic msg : string) :
  reachable mm m maxSize s ->
  ulong (now - lastRead s) > readTimeout ->
  (String.length topic + String.length msg + 2 < 1024)%nat ->
  m (Z.of_nat (String.length topic + String.length msg + 2)) = true ->
  let s1 := check_timeouts now s in
  linkState (rx s1) = SYNC /\
  exists r',
    fold_left (rx_byte mm m now') (frame_bytes num cmd topic msg) s1 =
    set_lastRead now' (set_rx r'
      (handle_frame mm now'
         {| fr_cmd := cmd; fr_payload := mqtt_payload topic msg;
            fr_len := Z.of_nat (String.length topic + String.length msg + 2) |} s1)) /\
    linkState r' = SYNC /\ allocated r' = false /\ msgBuf r' = None.
Proof.
  intros Hr Ht Hb Hm s1.
  assert (Hs : linkState (rx s1) = SYNC) by (apply check_timeouts_read_sync, Ht).
  destruct (reachable_hd_fo mm m maxSize s Hr) as [Hh Hf].
  destruct (check_timeouts_hd_fo now s) as [Hh1 Hf1]. fold s1 in Hh1, Hf1.
  rewrite <- Hh1 in Hh. rewrite <- Hf1 in Hf.
  split; [exact Hs |].
  destruct (feed_frame m (rx s1) num cmd topic msg Hs Hh Hf ltac:(lia) Hm)
    as (r' & E & S' & A' & B' & _).
  exists r'. rewrite frame_bytes_split in E |- *. cbv zeta in E |- *.
  cbn [app] in E |- *. rewrite rx_bytes_dispatch, E. cbn [fst snd fold_left].
  repeat split; assumption.
Qed.

Lemma resync_after_read_timeout_witness :
  let s := loop (fun _ _ => false) (fun _ => true) 1 [SOH; VER]
             (begin 0 (MuSerial_new "B")) in
  (reachable (fun _ _ => false) (fun _ => true) 4 s /\
   linkState (rx s) = HEADER /\ ulong (10 - lastRead s) > readTimeout) /\
  let s1 := check_timeouts 10 s in
  linkState (rx s1) = SYNC /\
  exists r',
    fold_left (rx_byte (fun _ _ => false) (fun _ => true) 11) (frame_bytes 3 MQTT "t" "m") s1 =
    set_lastRead 11 (set_rx r'
      (handle_frame (fun _ _ => false) 11
         {| fr_cmd := MQTT; fr_payload := mqtt_payload "t" "m";
            fr_len := Z.of_nat (String.length "t" + String.length "m" + 2) |} s1)) /\
    linkState r' = SYNC /\ allocated r' = false /\ msgBuf r' = None.
Proof.
  intros s.
  assert (H : reachable (fun _ _ => false) (fun _ => true) 4 s)
    by (apply reachable_loop, reach_begin).
  split; [split; [exact H | split; vm_compute; reflexivity] |].
  apply (resync_after_read_timeout (fun _ _ => false) (fun _ => true) 4 10 11 s 3 MQTT "t" "m").
  - exact H.
  - vm_compute. reflexivity.
  - vm_compute. lia.
  - reflexivity.
Defined.

(** ** A message across the bridge *)




(** ** The block lists *)

Lemma existsb_eqb_false (t : string) (l : list string) :
  existsb (fun x => String.eqb x t) l = false -> ~ In t l.
Proof. intros E Hi. rewrite (existsb_eqb_In t l Hi) in E. discriminate. Qed.

Lemma find_index_snoc (t : string) (l : list string) :
  ~ In t l -> find_index t (l ++ [t]) = Some (length l).
Proof.
  induction l as [|x l IH]; intros H; cbn.
  - rewrite String.eqb_refl. reflexivity.
  - destruct (String.eqb x t) eqn:E.
    + apply String.eqb_eq in E. subst. exfalso. apply H. left. reflexivity.
    + rewrite IH; [reflexivity |]. intros Hi. apply H. right. exact Hi.
Qed.

Lemma find_index_In (t : string) (l : list string) (i : nat) :
  find_index t l = Some i -> nth i l EmptyString = t /\ (i < length l)%nat.
Proof.
  revert i. induction l as [|x l IH]; intros i; cbn; [discriminate |].
  destruct (String.eqb x t) eqn:E.
  - intros [= <-]. apply String.eqb_eq in E. split; [exact E | lia].
  - destruct (find_index t l) as [j|]; cbn; [|discriminate].
    intros [= <-]. destruct (IH j eq_refl) as [A B]. split; [exact A | lia].
Qed.

Lemma array_erase_snoc (l : list string) (t : string) :
  array_erase (l ++ [t]) (length l) = Some l.
Proof.
  unfold array_erase. rewrite length_app. cbn [length].
  replace (length l <? length l + 1)%nat with true by (symmetry; apply Nat.ltb_lt; lia).
  rewrite take_app_length, drop_ge by (rewrite length_app; cbn; lia).
  rewrite app_nil_r. reflexivity.
Qed.

Lemma block_add_ok maxSize b l t l' :
  existsb (fun x => String.eqb x t) l = false -> array_add maxSize b l t = Some l' ->
  block_list_ok maxSize l -> block_list_ok maxSize l'.
Proof.
  intros He Ha [Hd Hl]. unfold array_add in Ha.
  destruct (length l <? maxSize)%nat eqn:Es; [|discriminate].
  destruct b; [|discriminate].
  injection Ha as <-. apply Nat.ltb_lt in Es. apply existsb_eqb_false in He.
  split.
  - apply NoDup_app. split; [exact Hd |]. split; [| apply NoDup_singleton].
    intros x Hx Hx'. apply list_elem_of_singleton in Hx'. subst x.
    apply He, list_elem_of_In, Hx.
  - rewrite length_app. cbn. lia.
Qed.

Lemma block_erase_ok maxSize l i l' :
  array_erase l i = Some l' -> block_list_ok maxSize l -> block_list_ok maxSize l'.
Proof.
  intros Ha [Hd Hl]. unfold array_erase in Ha.
  destruct (i <? length l)%nat eqn:Es; [|discriminate].
  injection Ha as <-. rewrite <- delete_take_drop.
  split.
  - eapply sublist_NoDup; [exact Hd | apply sublist_delete].
  - pose proof (sublist_length _ _ (sublist_delete l i)). lia.
Qed.

Lemma rx_byte_lists mm m now s c :
  outgoingBlockList (rx_byte mm m now s c) = outgoingBlockList s /\
  incomingBlockList (rx_byte mm m now s c) = incomingBlockList s.
Proof.
  unfold rx_byte. destruct (rx_assemble m c (rx (set_lastRead now s))) as [r [f|]];
    [| split; reflexivity].
  unfold handle_frame, internalPub, publish. repeat case_match; split; reflexivity.
Qed.

Lemma check_timeouts_lists now s :
  outgoingBlockList (check_timeouts now s) = outgoingBlockList s /\
  incomingBlockList (check_timeouts now s) = incomingBlockList s.
Proof. unfold check_timeouts, publish. repeat case_match; split; reflexivity. Qed.

Lemma subsMsg_lists mm topic msg o s :
  outgoingBlockList (subsMsg mm topic msg o s) = outgoingBlockList s /\
  incomingBlockList (subsMsg mm topic msg o s) = incomingBlockList s.
Proof. unfold subsMsg, sendOut. repeat case_match; split; reflexivity. Qed.

Lemma reachable_lists mm m maxSize s : reachable mm m maxSize s ->
  block_list_ok maxSize (outgoingBlockList s) /\ block_list_ok maxSize (incomingBlockList s).
Proof.
  induction 1 as [nm now|now s _ IH|now c s _ IH|now s _ IH|topic msg o s _ IH
                 |b topic s _ IH|topic s _ IH|b topic s _ IH|topic s _ IH].
  - split; (split; [constructor | cbn; lia]).
  - exact IH.
  - rewrite (proj1 (rx_byte_lists _ _ _ _ _)), (proj2 (rx_byte_lists _ _ _ _ _)). exact IH.
  - rewrite (proj1 (check_timeouts_lists _ _)), (proj2 (check_timeouts_lists _ _)). exact IH.
  - rewrite (proj1 (subsMsg_lists _ _ _ _ _)), (proj2 (subsMsg_lists _ _ _ _ _)). exact IH.
  - destruct IH as [Ho Hi]. unfold outgoingBlockSet.
    destruct (existsb _ _) eqn:He; [split; assumption |].
    destruct (array_add _ _ _ _) eqn:Ha; [| split; assumption].
    split; [eapply block_add_ok; eassumption | exact Hi].
  - destruct IH as [Ho Hi]. unfold outgoingBlockRemove.
    destruct (find_index _ _); [| split; assumption].
    destruct (array_erase _ _) eqn:Ha; [| split; assumption].
    split; [eapply block_erase_ok; eassumption | exact Hi].
  - destruct IH as [Ho Hi]. unfold incomingBlockSet.
    destruct (existsb _ _) eqn:He; [split; assumption |].
    destruct (array_add _ _ _ _) eqn:Ha; [| split; assumption].
    split; [exact Ho | eapply block_add_ok; eassumption].
  - destruct IH as [Ho Hi]. unfold incomingBlockRemove.
    destruct (find_index _ _); [| split; assumption].
    destruct (array_erase _ _) eqn:Ha; [| split; assumption].
    split; [exact Ho | eapply block_erase_ok; eassumption].
Qed.

Lemma erase_found (t : string) (l l' : list string) (i : nat) :
  find_index t l = Some i -> array_erase l i = Some l' -> NoDup l ->
  ~ In t l' /\ forall x, x <> t -> (In x l' <-> In x l).
Proof.
  intros Hf Ha Hd. destruct (find_index_In t l i Hf) as [Hn Hi].
  unfold array_erase in Ha. rewrite (proj2 (Nat.ltb_lt i (length l)) Hi) in Ha.
  injection Ha as <-.
  assert (Hl : l !! i = Some t).
  { destruct (nth_lookup_or_length l i EmptyString) as [E|E]; [rewrite Hn in E; exact E | lia]. }
  pose proof (take_drop_middle l i t Hl) as Hm.
  rewrite <- Hm in Hd. apply NoDup_app in Hd as (_ & Hx & Hc).
  apply NoDup_cons in Hc as [Hc _].
  split.
  - intros Hin. apply in_app_iff in Hin as [Hin|Hin].
    + apply (Hx t); [apply list_elem_of_In, Hin | left].
    + apply Hc, list_elem_of_In, Hin.
  - intros x Hxt. transitivity (In x (take i l ++ t :: drop (S i) l)); [| rewrite Hm; reflexivity].
    rewrite !in_app_iff. cbn. intuition congruence.
Qed.

(** X7: in every state a node reaches, each block list holds every pattern
    at most once and holds at most [maxSize] patterns. *)
Theorem block_lists_invariant (mm : string -> string -> bool) (m : Z -> bool)
  (maxSize : nat) (s : MuSerial) :
  reachable mm m maxSize s ->
  NoDup (outgoingBlockList s) /\ (length (outgoingBlockList s) <= maxSize)%nat /\
  NoDup (incomingBlockList s) /\ (length (incomingBlockList s) <= maxSize)%nat.
Proof.
  intros H. destruct (reachable_lists mm m maxSize s H) as [[A B] [C D]]. auto.
Qed.

(** X8: a pattern that [outgoingBlockSet] (or [incomingBlockSet]) has just
    added is taken out again by [outgoingBlockRemove] (or
    [incomingBlockRemove]), which reports success and restores the node
    exactly. *)
Theorem block_set_remove_roundtrip (maxSize : nat) (store_ok : bool) (t : string)
  (s : MuSerial) :
  (forall s', outgoingBlockSet maxSize store_ok t s = (true, s') ->
     outgoingBlockRemove t s' = (true, s)) /\
  (forall s', incomingBlockSet maxSize store_ok t s = (true, s') ->
     incomingBlockRemove t s' = (true, s)).
Proof.
  split; intros s' H.
  - unfold outgoingBlockSet in H. destruct (existsb _ _) eqn:He; [discriminate |].
    destruct (array_add _ _ _ _) eqn:Ha; [| discriminate]. injection H as <-.
    unfold array_add in Ha. destruct (_ && _); [| discriminate]. injection Ha as <-.
    unfold outgoingBlockRemove. cbn [outgoingBlockList set_outgoingBlockList].
    rewrite find_index_snoc by (apply existsb_eqb_false, He).
    rewrite array_erase_snoc. destruct s; reflexivity.
  - unfold incomingBlockSet in H. destruct (existsb _ _) eqn:He; [discriminate |].
    destruct (array_add _ _ _ _) eqn:Ha; [| discriminate]. injection H as <-.
    unfold array_add in Ha. destruct (_ && _); [| discriminate]. injection Ha as <-.
    unfold incomingBlockRemove. cbn [incomingBlockList set_incomingBlockList].
    rewrite find_index_snoc by (apply existsb_eqb_false, He).
    rewrite array_erase_snoc. destruct s; reflexivity.
Qed.

(** X9: in a state a node reaches, a successful [outgoingBlockRemove t]
    (or [incomingBlockRemove t]) leaves no copy of [t] in the list and keeps
    every other pattern. *)
Theorem block_remove_exact (mm : string -> string -> bool) (m : Z -> bool)
  (maxSize : nat) (t : string) (s : MuSerial) :
  reachable mm m maxSize s ->
  (forall s', outgoingBlockRemove t s = (true, s') ->
     ~ In t (outgoingBlockList s') /\
     forall x, x <> t -> (In x (outgoingBlockList s') <-> In x (outgoingBlockList s))) /\
  (forall s', incomingBlockRemove t s = (true, s') ->
     ~ In t (incomingBlockList s') /\
     forall x, x <> t -> (In x (incomingBlockList s') <-> In x (incomingBlockList s))).
Proof.
  intros Hr. destruct (reachable_lists mm m maxSize s Hr) as [[Ho _] [Hi _]].
  split; intros s' H.
  - unfold outgoingBlockRemove in H. destruct (find_index _ _) as [i|] eqn:Hf; [| discriminate].
    destruct (array_erase _ _) as [l'|] eqn:Ha; [| discriminate]. injection H as <-.
    exact (erase_found t _ l' i Hf Ha Ho).
  - unfold incomingBlockRemove in H. destruct (find_index _ _) as [i|] eqn:Hf; [| discriminate].
    destruct (array_erase _ _) as [l'|] eqn:Ha; [| discriminate]. injection H as <-.
    exact (erase_found t _ l' i Hf Ha Hi).
Qed.

Lemma block_lists_invariant_witness :
  let s := snd (incomingBlockSet 2 true "x/#"
             (snd (outgoingBlockSet 2 true "a/#" (begin 0 (MuSerial_new "B"))))) in
  reachable (fun _ _ => false) (fun _ => true) 2 s /\
  NoDup (outgoingBlockList s) /\ (length (outgoingBlockList s) <= 2)%nat /\
  NoDup (incomingBlockList s) /\ (length (incomingBlockList s) <= 2)%nat.
Proof.
  intros s.
  assert (H : reachable (fun _ _ => false) (fun _ => true) 2 s)
    by (apply reach_iset, reach_oset, reach_begin).
  split; [exact H |]. exact (block_lists_invariant _ _ _ s H).
Defined.

Lemma block_set_remove_roundtrip_witness :
  let s := begin 0 (MuSerial_new "B") in
  let s' := snd (outgoingBlockSet 2 true "a/#" s) in
  outgoingBlockSet 2 true "a/#" s = (true, s') /\ outgoingBlockRemove "a/#" s' = (true, s).
Proof.
  intros s s'.
  assert (H : outgoingBlockSet 2 true "a/#" s = (true, s')) by reflexivity.
  split; [exact H |]. exact (proj1 (block_set_remove_roundtrip 2 true "a/#" s) s' H).
Defined.

Lemma block_remove_exact_witness :
  let s := snd (outgoingBlockSet 4 true "b"
             (snd (outgoingBlockSet 4 true "a/#" (begin 0 (MuSerial_new "B"))))) in
  let s' := snd (outgoingBlockRemove "a/#" s) in
  (reachable (fun _ _ => false) (fun _ => true) 4 s /\
   outgoingBlockRemove "a/#" s = (true, s')) /\
  ~ In "a/#"%string (outgoingBlockList s') /\
  forall x, x <> "a/#"%string -> (In x (outgoingBlockList s') <-> In x (outgoingBlockList s)).
Proof.
  intros s s'.
  assert (H : reachable (fun _ _ => false) (fun _ => true) 4 s)
    by (apply reach_oset, reach_oset, reach_begin).
  assert (E : outgoingBlockRemove "a/#" s = (true, s')) by reflexivity.
  split; [split; [exact H | exact E] |].
  exact (proj1 (block_remove_exact (fun _ _ => false) (fun _ => true) 4 "a/#" s H) s' E).
Defined.

(** ** What [loop] writes *)

Lemma rx_byte_wire mm m now s c : wire (rx_byte mm m now s c) = wire s.
Proof.
  unfold rx_byte. destruct (rx_assemble m c (rx (set_lastRead now s))) as [r [f|]];
    [| reflexivity].
  unfold handle_frame, internalPub, publish. repeat case_match; reflexivity.
Qed.

Lemma fold_rx_byte_wire mm m now input s :
  wire (fold_left (rx_byte mm m now) input s) = wire s.
Proof.
  revert s. induction input as [|c input IH]; intros s; [reflexivity |].
  cbn [fold_left]. rewrite IH. apply rx_byte_wire.
Qed.

Lemma check_timeouts_wire now s : wire (check_timeouts now s) = wire s.
Proof. unfold check_timeouts, publish. repeat case_match; reflexivity. Qed.

(** The bytes one [loop] pass writes. *)
Lemma loop_wire (mm : string -> string -> bool) (m : Z -> bool) (now : Z)
  (input : list Z) (s : MuSerial) :
  wire (loop mm m now input s) =
  wire s ++ (if bCheckLink s && (ulong (now - lastPingSent s) >? pingPeriod)
             then frame_bytes (blockNum s) MUPING (ltoa now 15) (name s) else []).
Proof.
  unfold loop. destruct (bCheckLink s); cbn [andb]; [| rewrite app_nil_r; reflexivity].
  rewrite check_timeouts_wire, fold_rx_byte_wire.
  destruct (ulong (now - lastPingSent s) >? pingPeriod); [reflexivity |].
  rewrite app_nil_r. reflexivity.
Qed.

(** X10: one [loop] pass writes to the serial port nothing but, when the
    ping period has elapsed, one PING frame carrying the uptime in base 15
    and the node's name; reading bytes and the timeout checks never write. *)
Theorem loop_writes_only_ping (mm : string -> string -> bool) (m : Z -> bool) (now : Z)
  (input : list Z) (s : MuSerial) :
  wire (loop mm m now input s) =
  wire s ++ (if bCheckLink s && (ulong (now - lastPingSent s) >? pingPeriod)
             then frame_bytes (blockNum s) MUPING (ltoa now 15) (name s) else []).
Proof. apply loop_wire. Qed.

(** ** The layout of a frame *)

Lemma hi_lo_u16 (len : Z) : 256 * u8 (len / 256) + u8 (len mod 256) = u16 len.
Proof.
  unfold u8, u16. rewrite (Z.mod_mod len 256) by lia.
  pose proof (Z.div_mod len 256 ltac:(lia)) as E1.
  pose proof (Z.div_mod (len / 256) 256 ltac:(lia)) as E2.
  pose proof (Z.mod_pos_bound len 256 ltac:(lia)) as B1.
  pose proof (Z.mod_pos_bound (len / 256) 256 ltac:(lia)) as B2.
  apply (Z.mod_unique len 65536 ((len / 256) / 256)); lia.
Qed.

(** X11: the frame [sendOut] writes is 14 bytes longer than topic and
    message: it starts with SOH and version, has STX at offset 6, the
    payload length modulo 65536 in bytes 4 and 5 (high byte first), the
    payload [topic NUL msg NUL] from offset 8, ETX four bytes before the end
    and EOT last; and the XOR of all bytes from the version through the
    checksum byte is 0. *)
Theorem frame_layout (num cmd : Z) (topic msg : string) :
  let W := frame_bytes num cmd topic msg in
  let n := (String.length topic + String.length msg + 2)%nat in
  length W = (n + 12)%nat /\
  nth 0 W 0 = SOH /\ nth 1 W 0 = VER /\ nth 2 W 0 = num /\ nth 3 W 0 = cmd /\
  256 * nth 4 W 0 + nth 5 W 0 = u16 (Z.of_nat n) /\ nth 6 W 0 = STX /\
  drop 8 (take (8 + n) W) = mqtt_payload topic msg /\
  nth (8 + n) W 0 = ETX /\ nth (11 + n) W 0 = EOT /\
  crc (take (n + 10) (drop 1 W)) 0 = 0.
Proof.
  intros W n. unfold W. rewrite frame_bytes_split. cbv zeta.
  fold n. pose proof (length_mqtt_payload topic msg) as HP. fold n in HP.
  set (P := mqtt_payload topic msg) in *.
  set (hi := u8 (Z.of_nat n / 256)). set (lo := u8 (Z.of_nat n mod 256)).
  set (F := [ETX; 0; crc [ETX; 0] (crc P (crc (drop 1 [SOH; VER; num; cmd; hi; lo; STX; 0]) 0)); EOT]).
  assert (HW : [SOH; VER; num; cmd; hi; lo; STX; 0] ++ P ++ F =
               ([SOH; VER; num; cmd; hi; lo; STX; 0] ++ P) ++ F) by apply app_assoc.
  assert (Hl : length ([SOH; VER; num; cmd; hi; lo; STX; 0] ++ P) = (8 + n)%nat)
    by (rewrite length_app, HP; reflexivity).
  repeat split.
  - rewrite !length_app, HP. cbn. lia.
  - apply hi_lo_u16.
  - rewrite HW, take_app_length' by (symmetry; exact Hl).
    apply drop_app_length'. reflexivity.
  - rewrite HW, app_nth2 by lia. rewrite Hl. replace (8 + n - (8 + n))%nat with 0%nat by lia.
    reflexivity.
  - rewrite HW, app_nth2 by lia. rewrite Hl. replace (11 + n - (8 + n))%nat with 3%nat by lia.
    reflexivity.
  - set (S := [VER; num; cmd; hi; lo; STX; 0] ++ P ++ [ETX; 0]).
    assert (HS : length S = (n + 9)%nat) by (unfold S; rewrite !length_app, HP; cbn; lia).
    assert (Hd : drop 1 ([SOH; VER; num; cmd; hi; lo; STX; 0] ++ P ++ F) = S ++ [crc S 0; EOT]).
    { unfold S, F. rewrite !crc_app. rewrite <- !app_assoc. reflexivity. }
    rewrite Hd.
    replace (n + 10)%nat with (length (S ++ [crc S 0])) by (rewrite length_app, HS; cbn; lia).
    change (S ++ [crc S 0; EOT]) with (S ++ [crc S 0] ++ [EOT]).
    rewrite (app_assoc S [crc S 0] [EOT]), take_app_length.
    rewrite crc_app. cbn [crc]. apply Z.lxor_nilpotent.
Qed.

(** ** The receiver on any framed block *)

(** X12: started in [SYNC] on a start byte, a header with the right version
    and STX marker whose length field [256 * hi + lo] equals the length of
    the following payload (between 1 and 1023, allocation succeeding), the
    payload and four footer bytes, the receiver hands on exactly one frame,
    with the header's command byte, that payload and its length, when the
    footer has ETX first, EOT last and the XOR of all bytes from the version
    through the footer pad equals the footer's checksum byte, and nothing
    otherwise; the block number, the header pad and the footer pad are not
    checked on their own.  It ends in [SYNC] holding no buffer. *)
Theorem framed_block_decoded (m : Z -> bool) (r : Rx) (w1 w2 w3 w4 w5 w6 w7 : Z)
  (P : list Z) (e p cc o : Z) :
  linkState r = SYNC -> length (hd r) = 8%nat -> length (fo r) = 4%nat ->
  w1 = VER -> w6 = STX -> 256 * w4 + w5 = Z.of_nat (length P) ->
  (0 < length P < 1024)%nat -> m (Z.of_nat (length P)) = true ->
  exists r',
    rx_feed m ([SOH; w1; w2; w3; w4; w5; w6; w7] ++ P ++ [e; p; cc; o]) r =
      (r', if (e =? ETX) && (o =? EOT) &&
              (crc ([w1; w2; w3; w4; w5; w6; w7] ++ P ++ [e; p]) 0 =? cc)
           then [{| fr_cmd := w3; fr_payload := P; fr_len := Z.of_nat (length P) |}]
           else []) /\
    linkState r' = SYNC /\ allocated r' = false /\ msgBuf r' = None.
Proof.
  intros Hst Hh Hf H1 H6 Hl Hb Hm.
  destruct (feed_framed m r w1 w2 w3 w4 w5 w6 w7 P e p cc o Hst Hh Hf H1 H6 Hl Hb Hm)
    as (r' & E & A & B & C & _).
  exists r'. auto.
Qed.

Lemma framed_block_decoded_witness :
  (256 * 0 + 2 = Z.of_nat (length [65; 66]) /\ (0 < length [65; 66] < 1024)%nat) /\
  exists r',
    rx_feed (fun _ => true) ([SOH; VER; 9; 1; 0; 2; STX; 7] ++ [65; 66] ++ [ETX; 5; 6; EOT])
      rx_init =
      (r', if (ETX =? ETX) && (EOT =? EOT) &&
              (crc ([VER; 9; 1; 0; 2; STX; 7] ++ [65; 66] ++ [ETX; 5]) 0 =? 6)
           then [{| fr_cmd := 1; fr_payload := [65; 66]; fr_len := Z.of_nat (length [65; 66]) |}]
           else []) /\
    linkState r' = SYNC /\ allocated r' = false /\ msgBuf r' = None.
Proof.
  split; [split; [reflexivity | cbn; lia] |].
  apply (framed_block_decoded (fun _ => true) rx_init VER 9 1 0 2 STX 7 [65; 66] ETX 5 6 EOT).
  - reflexivity.
  - reflexivity.
  - reflexivity.
  - reflexivity.
  - reflexivity.
  - reflexivity.
  - cbn. lia.
  - reflexivity.
Defined.

(** ** Where the receiver writes *)

Lemma u16_range x : 0 <= u16 x < 65536.
Proof. unfold u16. apply Z.mod_pos_bound. lia. Qed.

Lemma rx_assemble_bounds m c r : rx_bounds r -> rx_bounds (fst (rx_assemble m c r)).
Proof.
  destruct r as [st h hl ml cm mb al f cl]. unfold rx_bounds.
  cbn [linkState hd fo hLen msgLen curMsg msgBuf cLen].
  intros (Hh & Hf & Hs).
  destruct st; unfold rx_assemble; rx_norm; simpl in Hs.
  - destruct (c =? SOH); cbn; rewrite ?length_insert; repeat split; auto; lia.
  - rewrite u16_small by lia. cbn.
    destruct (hl + 1 =? 8) eqn:E8.
    + destruct (_ || _); [cbn; rewrite length_insert; repeat split; auto |].
      destruct (_ <? 1024) eqn:El; [| cbn; rewrite length_insert; repeat split; auto].
      apply Z.ltb_lt in El.
      destruct (m _); cbn; rewrite length_insert; repeat split; auto; try lia.
      eexists. split; [reflexivity | apply repeat_length].
    + apply Z.eqb_neq in E8. cbn. rewrite length_insert. repeat split; auto; lia.
  - destruct Hs as (Hc & Hml & Hlt & b & Hb & Hbl). rewrite Hb. cbn.
    pose proof (u16_range (cm + 1)) as Hu.
    destruct (u16 (cm + 1) =? ml) eqn:Ek; cbn; repeat split; auto; try lia.
    + intros Hp. apply Z.eqb_neq in Ek. rewrite u16_small in Ek |- * by lia. lia.
    + eexists. split; [reflexivity |]. rewrite length_insert. exact Hbl.
  - rewrite u16_small by lia. cbn.
    destruct (cl + 1 =? 4) eqn:E4.
    + destruct (_ || _); [| destruct (negb _)]; cbn;
        rewrite ?(proj1 (free_buf_hd_fo _)), ?(proj1 (proj2 (free_buf_hd_fo _))); cbn;
        rewrite ?length_insert; repeat split; auto.
    + apply Z.eqb_neq in E4. cbn. rewrite length_insert. repeat split; auto; lia.
Qed.

Lemma check_timeouts_bounds now s : rx_bounds (rx s) -> rx_bounds (rx (check_timeouts now s)).
Proof.
  intros H. unfold check_timeouts.
  repeat (case_match; cbn [rx set_rx set_linkConnected publish set_pubs]); try exact H.
  all: destruct H as (Hh & Hf & _); unfold rx_bounds;
    rewrite (proj1 (free_buf_hd_fo _)), (proj1 (proj2 (free_buf_hd_fo _))),
      (proj2 (proj2 (free_buf_hd_fo _))); cbn; repeat split; auto.
Qed.

Lemma reachable_bounds mm m maxSize s : reachable mm m maxSize s -> rx_bounds (rx s).
Proof.
  induction 1 as [nm now|now s _ IH|now c s _ IH|now s _ IH|topic msg o s _ IH
                 |b topic s _ IH|topic s _ IH|b topic s _ IH|topic s _ IH].
  - repeat split.
  - exact IH.
  - rewrite rx_byte_rx. apply rx_assemble_bounds. exact IH.
  - apply check_timeouts_bounds. exact IH.
  - rewrite subsMsg_rx. exact IH.
  - unfold outgoingBlockSet. repeat case_match; exact IH.
  - unfold outgoingBlockRemove. repeat case_match; exact IH.
  - unfold incomingBlockSet. repeat case_match; exact IH.
  - unfold incomingBlockRemove. repeat case_match; exact IH.
Qed.

(** X13: in every state a node reaches, the next byte is written inside its
    array: [pHd[hLen]] in [HEADER] and [pFo[cLen]] in [CRC] always, and
    [msgBuf[curMsg]] in [MSG], where [msgBuf] holds the declared payload
    length, whenever that length is positive (a declared length of 0 is
    the exception). *)
Theorem rx_write_bounds (mm : string -> string -> bool) (m : Z -> bool) (maxSize : nat)
  (s : MuSerial) :
  reachable mm m maxSize s ->
  (linkState (rx s) = HEADER ->
     0 <= hLen (rx s) /\ (Z.to_nat (hLen (rx s)) < length (hd (rx s)))%nat) /\
  (linkState (rx s) = CRC ->
     0 <= cLen (rx s) /\ (Z.to_nat (cLen (rx s)) < length (fo (rx s)))%nat) /\
  (linkState (rx s) = MSG ->
     exists b, msgBuf (rx s) = Some b /\ length b = Z.to_nat (msgLen (rx s)) /\
       (0 < msgLen (rx s) -> 0 <= curMsg (rx s) /\ (Z.to_nat (curMsg (rx s)) < length b)%nat)).
Proof.
  intros Hr. pose proof (reachable_bounds mm m maxSize s Hr) as (Hh & Hf & Hs).
  rewrite Hh, Hf.
  split; [| split]; intros E; rewrite E in Hs; simpl in Hs.
  - split; lia.
  - split; lia.
  - destruct Hs as (Hc & Hml & Hlt & b & Hb & Hbl).
    exists b. split; [exact Hb |]. split; [exact Hbl |].
    intros Hp. specialize (Hlt Hp). split; lia.
Qed.

Lemma rx_write_bounds_witness :
  let s := loop (fun _ _ => false) (fun _ => true) 1 [SOH; VER; 0; MQTT; 0; 3; STX; 0; 65]
             (begin 0 (MuSerial_new "B")) in
  (reachable (fun _ _ => false) (fun _ => true) 4 s /\ linkState (rx s) = MSG) /\
  (linkState (rx s) = HEADER ->
     0 <= hLen (rx s) /\ (Z.to_nat (hLen (rx s)) < length (hd (rx s)))%nat) /\
  (linkState (rx s) = CRC ->
     0 <= cLen (rx s) /\ (Z.to_nat (cLen (rx s)) < length (fo (rx s)))%nat) /\
  (linkState (rx s) = MSG ->
     exists b, msgBuf (rx s) = Some b /\ length b = Z.to_nat (msgLen (rx s)) /\
       (0 < msgLen (rx s) -> 0 <= curMsg (rx s) /\ (Z.to_nat (curMsg (rx s)) < length b)%nat)).
Proof.
  intros s.
  assert (H : reachable (fun _ _ => false) (fun _ => true) 4 s)
    by (apply reachable_loop, reach_begin).
  split; [split; [exact H | vm_compute; reflexivity] |].
  exact (rx_write_bounds _ _ _ s H).
Defined.

(** ** How often [loop] pings *)





